(** * Lost & Found: item matching, chat bookkeeping and gamification

    A shallow embedding of the Mongoose models ([User], [Item], [Chat],
    [Message]) and of the Express routes that drive them, followed by the
    properties of the item/match/chat flow.

    Conventions of the embedding:
    - an [ObjectId] is its hexadecimal string ([toString()]), which is what the
      code compares and sorts;
    - a [Date] is a number of milliseconds since the epoch;
    - a collection is the list of its documents in insertion order;
    - a document method that ends in [this.save()] takes the collection and
      returns the mutated document together with the collection after the
      write;
    - the clock reading and the identifier drawn for a new document are
      explicit arguments of the operation that consumes them. *)

From Stdlib Require Import ZArith QArith Qabs Lia.
From stdpp Require Import gmap strings list sorting pretty.

Local Open Scope Z_scope.

(** ** Basic types *)

Definition ObjectId := string.
Definition Date := Z.

(** JavaScript truthiness of a possibly undefined string. *)
Definition truthy (s : option string) : bool :=
  match s with
  | Some v => negb (bool_decide (v = ""))
  | None => false
  end.

(** [String.prototype.trim] on the ASCII white space characters. *)
Fixpoint trimStart (s : string) : string :=
  match s with
  | String a r => if Ascii.is_space a then trimStart r else s
  | EmptyString => EmptyString
  end.

Definition trim (s : string) : string :=
  String.rev (trimStart (String.rev (trimStart s))).

(** Comparison of two rationals can be decided. *)
Global Instance Qle_decision (x y : Q) : Decision (x <= y)%Q.
Proof.
  destruct (Qlt_le_dec y x) as [Hlt|Hle]; [right|left; exact Hle].
  intros Hle. exact (Qlt_not_le _ _ Hlt Hle).
Defined.

(** ** Collections *)

Section Collection.
Context {A : Type} (key : A → ObjectId).

(** [Model.findOne]: the first document that passes the filter. *)
Definition findOne (P : A → Prop) `{∀ d, Decision (P d)} (c : list A)
  : option A :=
  head (filter P c).

(** [Model.findById]. *)
Definition findById (i : ObjectId) (c : list A) : option A :=
  findOne (λ d, key d = i) c.

(** [Model.updateMany]: the change is applied to every stored document
    that passes the filter. *)
Definition updateMany (P : A → Prop) `{∀ d, Decision (P d)} (f : A → A)
    (c : list A) : list A :=
  (λ x, if decide (P x) then f x else x) <$> c.

(** [Model.updateOne]: the change is applied to the first stored document
    that passes the filter. *)
Fixpoint updateOne (P : A → Prop) `{∀ d, Decision (P d)} (f : A → A)
    (c : list A) : list A :=
  match c with
  | [] => []
  | x :: rest => if decide (P x) then f x :: rest else x :: updateOne P f rest
  end.

(** [Model.findByIdAndUpdate]. *)
Definition updateById (f : A → A) (i : ObjectId) (c : list A) : list A :=
  updateOne (λ d, key d = i) f c.

(** [doc.save()] of a document fetched earlier: the stored copy is
    replaced. *)
Definition saveDoc (d : A) (c : list A) : list A :=
  updateById (λ _, d) (key d) c.

(** [doc.save()] of a document built with [new Model(...)]. *)
Definition insertDoc (d : A) (c : list A) : list A := c ++ [d].
End Collection.

Section Removal.
Context {A : Type} (key : A → ObjectId).

(** [Model.findByIdAndDelete]: the first document carrying the identifier
    is removed. *)
Fixpoint deleteById (i : ObjectId) (c : list A) : list A :=
  match c with
  | [] => []
  | x :: rest => if decide (key x = i) then rest else x :: deleteById i rest
  end.
End Removal.

(** ** models/User.js

    Source: [src/server/models/User.js]. Of the schema, the identifier, two
    profile fields and the gamification fields are kept. *)

Module User.

Record Badge := {
  name : string;
  description : string;
  earnedAt : Date
}.

Record t := {
  _id : ObjectId;
  email : string;
  userName : string;
  points : Z;
  badges : list Badge;
  level : Z;
  itemsPosted : Z;
  itemsReturned : Z
}.

Definition setItemsPosted (n : Z) (u : t) : t :=
  {| _id := _id u; email := email u; userName := userName u;
     points := points u; badges := badges u; level := level u;
     itemsPosted := n; itemsReturned := itemsReturned u |}.

(** The badge pushed on a level up; [earnedAt] takes its default. *)
Definition levelBadge (newLevel : Z) (now : Date) : Badge :=
  {| name := "Level " +:+ pretty newLevel;
     description := "Reached level " +:+ pretty newLevel +:+ "!";
     earnedAt := now |}.

(** The body of [addPoints] up to the final [save]. *)
Definition addPointsDoc (amount : Z) (now : Date) (u : t) : t :=
  let points' := points u + amount in
  let newLevel := points' `div` 100 + 1 in
  if bool_decide (newLevel > level u) then
    {| _id := _id u; email := email u; userName := userName u;
       points := points'; badges := badges u ++ [levelBadge newLevel now];
       level := newLevel;
       itemsPosted := itemsPosted u; itemsReturned := itemsReturned u |}
  else
    {| _id := _id u; email := email u; userName := userName u;
       points := points'; badges := badges u; level := level u;
       itemsPosted := itemsPosted u; itemsReturned := itemsReturned u |}.

(** [userSchema.methods.addPoints]. *)
Definition addPoints (amount : Z) (now : Date) (u : t) (users : list t)
  : t * list t :=
  let u' := addPointsDoc amount now u in (u', saveDoc _id u' users).

(** A run of [addPoints] calls on one document: the document after each
    call, in call order. Every call reads the clock. *)
Fixpoint addPointsRun (calls : list (Z * Date)) (u : t) (users : list t)
  : list t :=
  match calls with
  | [] => []
  | (amount, now) :: rest =>
      let '(u', users') := addPoints amount now u users in
      u' :: addPointsRun rest u' users'
  end.

(** A freshly registered user: every counter at its schema default. *)
Definition fresh (i : ObjectId) (mail nm : string) : t :=
  {| _id := i; email := mail; userName := nm; points := 0; badges := [];
     level := 1; itemsPosted := 0; itemsReturned := 0 |}.

Definition setBadges (v : list Badge) (u : t) : t :=
  {| _id := _id u; email := email u; userName := userName u;
     points := points u; badges := v; level := level u;
     itemsPosted := itemsPosted u; itemsReturned := itemsReturned u |}.

(** [userSchema.methods.addBadge]. *)
Definition addBadge (badgeName text : string) (now : Date) (u : t)
    (users : list t) : t * list t :=
  match find (λ badge, bool_decide (name badge = badgeName)) (badges u) with
  | None =>
      let u' :=
        setBadges
          (badges u ++
           [{| name := badgeName; description := text; earnedAt := now |}])
          u in
      (u', saveDoc _id u' users)
  | Some _ => (u, users)
  end.

End User.

(** ** The platform underneath

    What the code obtains from MongoDB, from the JavaScript run time and from
    the image host, and what the embedding therefore takes as given. *)

Record Coordinates := { lat : Q; lng : Q }.

Record Location := {
  address : string;
  city : string;
  state : string;
  country : string;
  coordinates : Coordinates
}.

Record ContactInfo := {
  phone : string;
  contactEmail : string;
  preferredContact : string
}.

Record Reward := {
  amount : Q;
  currency : string;
  rewardDescription : string
}.

Record Image := { url : string; publicId : string; caption : string }.

(** A position on the sphere, in degrees, as a [2dsphere] index holds it. *)
Record Point := { longitude : Q; latitude : Q }.

Definition onSphere (p : Point) : Prop :=
  (-180 <= longitude p)%Q ∧ (longitude p <= 180)%Q ∧
  (-90 <= latitude p)%Q ∧ (latitude p <= 90)%Q.

Class Platform := {
  (** distance in metres between two positions, as the [2dsphere] index
      measures it for [$near]: the length of the great-circle arc on a
      sphere of radius 6378100 m *)
  geoDistance : Point → Point → Q;
  (** a position is at distance zero from itself *)
  geoDistance_same p : onSphere p → (geoDistance p p == 0)%Q;
  (** an arc is at least as long as the difference in latitude of its ends,
      and a degree of latitude is 6378100 * pi / 180 > 111319 metres *)
  geoDistance_parallels p q :
    onSphere p → onSphere q →
    (111319 * Qabs (latitude p - latitude q) <= geoDistance p q)%Q;
  (** [JSON.parse] of a request field followed by the schema's cast;
      [None] when [JSON.parse] throws *)
  parseLocation : string → option Location;
  parseTags : string → option (list string);
  parseReward : string → option Reward;
  parseContactInfo : string → option ContactInfo;
  (** [new Date(text)]; [None] for an invalid date *)
  parseDate : string → option Date;
  (** [cloudinary.uploader.upload]: the [secure_url] and [public_id] of the
      stored file; [None] when the upload is rejected *)
  upload : string → option (string * string)
}.

(** ** models/Item.js

    Source: the item schema, second half of [src/server/models/Chat.js].
    The [qrCode] field, which no code path sets, and [updatedAt] are left
    out. The schema declares [location.coordinates] as the embedded document
    [{ lat, lng }], and the posting form sends it with [lat] first; the
    [2dsphere] index on that path reads an embedded document as a legacy
    coordinate pair, the first field as longitude and the second as latitude,
    whatever the fields are called. A pair that is off the sphere when read
    that way, which the index refuses to store, is not told apart from the
    others: [geoDistance] is left unconstrained there. *)

Module Item.

Record PotentialMatch := {
  itemId : ObjectId;
  confidence : Q;
  matchedAt : Date
}.

Record t := {
  _id : ObjectId;
  title : string;
  description : string;
  type : string;
  category : string;
  images : list Image;
  location : Location;
  date : Date;
  status : string;
  isResolved : bool;
  resolvedAt : option Date;
  resolvedBy : option ObjectId;
  contactInfo : option ContactInfo;
  reward : option Reward;
  tags : list string;
  views : Z;
  potentialMatches : list PotentialMatch;
  postedBy : ObjectId;
  expiresAt : Date;
  createdAt : Date
}.

Definition types : list string := ["lost"; "found"].

Definition categories : list string :=
  ["Electronics"; "Documents"; "Jewelry"; "Clothing"; "Pets"; "Books";
   "Sports Equipment"; "Musical Instruments"; "Other"].

Definition statuses : list string := ["active"; "resolved"; "expired"].

Definition contactChoices : list string := ["phone"; "email"; "both"].

(** Default of [expiresAt]: thirty days, in milliseconds, after the clock
    reading. *)
Definition defaultExpiresAt (now : Date) : Date :=
  now + 30 * 24 * 60 * 60 * 1000.

Definition setTitle (v : string) (i : t) : t :=
  {| _id := _id i; title := v; description := description i;
     type := type i; category := category i; images := images i;
     location := location i; date := date i; status := status i;
     isResolved := isResolved i; resolvedAt := resolvedAt i;
     resolvedBy := resolvedBy i; contactInfo := contactInfo i;
     reward := reward i; tags := tags i; views := views i;
     potentialMatches := potentialMatches i; postedBy := postedBy i;
     expiresAt := expiresAt i; createdAt := createdAt i |}.

Definition setDescription (v : string) (i : t) : t :=
  {| _id := _id i; title := title i; description := v; type := type i;
     category := category i; images := images i; location := location i;
     date := date i; status := status i; isResolved := isResolved i;
     resolvedAt := resolvedAt i; resolvedBy := resolvedBy i;
     contactInfo := contactInfo i; reward := reward i; tags := tags i;
     views := views i; potentialMatches := potentialMatches i;
     postedBy := postedBy i; expiresAt := expiresAt i;
     createdAt := createdAt i |}.

Definition setCategory (v : string) (i : t) : t :=
  {| _id := _id i; title := title i; description := description i;
     type := type i; category := v; images := images i;
     location := location i; date := date i; status := status i;
     isResolved := isResolved i; resolvedAt := resolvedAt i;
     resolvedBy := resolvedBy i; contactInfo := contactInfo i;
     reward := reward i; tags := tags i; views := views i;
     potentialMatches := potentialMatches i; postedBy := postedBy i;
     expiresAt := expiresAt i; createdAt := createdAt i |}.

Definition setLocation (v : Location) (i : t) : t :=
  {| _id := _id i; title := title i; description := description i;
     type := type i; category := category i; images := images i;
     location := v; date := date i; status := status i;
     isResolved := isResolved i; resolvedAt := resolvedAt i;
     resolvedBy := resolvedBy i; contactInfo := contactInfo i;
     reward := reward i; tags := tags i; views := views i;
     potentialMatches := potentialMatches i; postedBy := postedBy i;
     expiresAt := expiresAt i; createdAt := createdAt i |}.

Definition setTags (v : list string) (i : t) : t :=
  {| _id := _id i; title := title i; description := description i;
     type := type i; category := category i; images := images i;
     location := location i; date := date i; status := status i;
     isResolved := isResolved i; resolvedAt := resolvedAt i;
     resolvedBy := resolvedBy i; contactInfo := contactInfo i;
     reward := reward i; tags := v; views := views i;
     potentialMatches := potentialMatches i; postedBy := postedBy i;
     expiresAt := expiresAt i; createdAt := createdAt i |}.

Definition setReward (v : option Reward) (i : t) : t :=
  {| _id := _id i; title := title i; description := description i;
     type := type i; category := category i; images := images i;
     location := location i; date := date i; status := status i;
     isResolved := isResolved i; resolvedAt := resolvedAt i;
     resolvedBy := resolvedBy i; contactInfo := contactInfo i;
     reward := v; tags := tags i; views := views i;
     potentialMatches := potentialMatches i; postedBy := postedBy i;
     expiresAt := expiresAt i; createdAt := createdAt i |}.

Definition setContactInfo (v : option ContactInfo) (i : t) : t :=
  {| _id := _id i; title := title i; description := description i;
     type := type i; category := category i; images := images i;
     location := location i; date := date i; status := status i;
     isResolved := isResolved i; resolvedAt := resolvedAt i;
     resolvedBy := resolvedBy i; contactInfo := v; reward := reward i;
     tags := tags i; views := views i;
     potentialMatches := potentialMatches i; postedBy := postedBy i;
     expiresAt := expiresAt i; createdAt := createdAt i |}.

Definition setPotentialMatches (v : list PotentialMatch) (i : t) : t :=
  {| _id := _id i; title := title i; description := description i;
     type := type i; category := category i; images := images i;
     location := location i; date := date i; status := status i;
     isResolved := isResolved i; resolvedAt := resolvedAt i;
     resolvedBy := resolvedBy i; contactInfo := contactInfo i;
     reward := reward i; tags := tags i; views := views i;
     potentialMatches := v; postedBy := postedBy i;
     expiresAt := expiresAt i; createdAt := createdAt i |}.

(** The four assignments of [markAsResolved]. *)
Definition setResolved (by_ : ObjectId) (now : Date) (i : t) : t :=
  {| _id := _id i; title := title i; description := description i;
     type := type i; category := category i; images := images i;
     location := location i; date := date i; status := "resolved";
     isResolved := true; resolvedAt := Some now; resolvedBy := Some by_;
     contactInfo := contactInfo i; reward := reward i; tags := tags i;
     views := views i; potentialMatches := potentialMatches i;
     postedBy := postedBy i; expiresAt := expiresAt i;
     createdAt := createdAt i |}.

(** The schema's validators, run by [save]: [required], [maxlength] and
    [enum]. *)
Definition validate (i : t) : bool :=
  bool_decide (title i ≠ "") && bool_decide (String.length (title i) ≤ 100)%nat
  && bool_decide (description i ≠ "")
  && bool_decide (String.length (description i) ≤ 1000)%nat
  && bool_decide (type i ∈ types)
  && bool_decide (category i ∈ categories)
  && bool_decide (address (location i) ≠ "")
  && bool_decide (city (location i) ≠ "")
  && bool_decide (status i ∈ statuses)
  && match contactInfo i with
     | Some c => bool_decide (preferredContact c ∈ contactChoices)
     | None => true
     end.

(** [itemSchema.methods.markAsResolved]. *)
Definition markAsResolved (resolvedByUserId : ObjectId) (now : Date)
    (i : t) (items : list t) : t * list t :=
  let i' := setResolved resolvedByUserId now i in
  (i', saveDoc _id i' items).

(** [itemSchema.methods.addPotentialMatch]. *)
Definition addPotentialMatch (matchId : ObjectId) (conf : Q) (now : Date)
    (i : t) (items : list t) : t * list t :=
  match find (λ m, bool_decide (itemId m = matchId)) (potentialMatches i) with
  | None =>
      let pushed := potentialMatches i ++
        [{| itemId := matchId; confidence := conf; matchedAt := now |}] in
      let i' := setPotentialMatches pushed i in
      (i', saveDoc _id i' items)
  | Some _ => (i, items)
  end.

Definition oppositeType (ty : string) : string :=
  if bool_decide (ty = "lost") then "found" else "lost".

(** The GeoJSON point [[coordinates.lng, coordinates.lat]] of a query. *)
Definition queryPoint (c : Coordinates) : Point :=
  {| longitude := lng c; latitude := lat c |}.

(** The stored pair [{ lat, lng }] as the index reads it, in field order. *)
Definition indexedPoint (c : Coordinates) : Point :=
  {| longitude := lat c; latitude := lng c |}.

Section Near.
Context `{Platform} (origin : Coordinates).

(** What [$near] measures for a stored item. *)
Definition distanceFrom (i : t) : Q :=
  geoDistance (queryPoint origin) (indexedPoint (coordinates (location i))).

(** The order in which [$near] lists documents. *)
Definition nearer (a b : t) : Prop :=
  Is_true (Qle_bool (distanceFrom a) (distanceFrom b)).

Global Instance nearer_dec : RelDecision nearer.
Proof. intros a b. unfold nearer. apply _. Defined.

(** [$near] with [$maxDistance]: the documents within the radius by the
    measure of the index, in ascending order of it. *)
Definition near (maxDistance : Q) (items : list t) : list t :=
  merge_sort nearer
    (filter (λ i, Is_true (Qle_bool (distanceFrom i) maxDistance)) items).
End Near.

(** [itemSchema.statics.findPotentialMatches]. *)
Definition findPotentialMatches `{Platform} (self : ObjectId)
    (ty cat : string) (origin : Coordinates) (items : list t) : list t :=
  take 10
    (near origin 50000
       (filter (λ i, _id i ≠ self ∧ type i = oppositeType ty
                      ∧ category i = cat ∧ status i = "active") items)).

Definition setViews (v : Z) (i : t) : t :=
  {| _id := _id i; title := title i; description := description i;
     type := type i; category := category i; images := images i;
     location := location i; date := date i; status := status i;
     isResolved := isResolved i; resolvedAt := resolvedAt i;
     resolvedBy := resolvedBy i; contactInfo := contactInfo i;
     reward := reward i; tags := tags i; views := v;
     potentialMatches := potentialMatches i; postedBy := postedBy i;
     expiresAt := expiresAt i; createdAt := createdAt i |}.

(** [itemSchema.methods.isExpired]; [now] is the reading of [new Date()]. *)
Definition isExpired (now : Date) (i : t) : bool :=
  bool_decide (now > expiresAt i).

(** [itemSchema.statics.findNearby]; an absent [maxDistance] takes the
    default of 10000 metres. *)
Definition findNearby `{Platform} (origin : Coordinates)
    (maxDistance : option Q) (items : list t) : list t :=
  near origin (default 10000%Q maxDistance)
    (filter (λ i, status i = "active") items).

End Item.

(** ** models/Chat.js

    Source: the chat schema, first half of [src/server/models/Chat.js].
    The schema declares the unique index [{ participants: 1, itemId: 1 }].
    [participants] is an array, so the index is multikey: a chat has one key
    per participant, and the database refuses to insert a chat when one of
    its keys is the key of a stored chat. Writes to a stored chat change
    neither field and are accepted. *)

Module Chat.

Record LastMessage := {
  content : option string;
  sender : option ObjectId;
  timestamp : Date
}.

Record t := {
  _id : ObjectId;
  participants : list ObjectId;
  itemId : ObjectId;
  lastMessage : LastMessage;
  unreadCount : gmap string Z;
  isActive : bool;
  startedAt : Date;
  lastActivity : Date
}.

Definition setUnreadCount (m : gmap string Z) (now : Date) (c : t) : t :=
  {| _id := _id c; participants := participants c; itemId := itemId c;
     lastMessage := lastMessage c; unreadCount := m;
     isActive := isActive c; startedAt := startedAt c;
     lastActivity := now |}.

Definition setLastMessage (l : LastMessage) (activity : Date) (c : t) : t :=
  {| _id := _id c; participants := participants c; itemId := itemId c;
     lastMessage := l; unreadCount := unreadCount c;
     isActive := isActive c; startedAt := startedAt c;
     lastActivity := activity |}.

(** The counter a user is shown from the denormalised map:
    [unreadCount.get(userId) || 0]. *)
Definition unreadOf (userId : ObjectId) (c : t) : Z :=
  default 0 (unreadCount c !! userId).

(** [chatSchema.methods.markAsRead]. *)
Definition markAsRead (userId : ObjectId) (now : Date) (c : t)
    (chats : list t) : t * list t :=
  let c' := setUnreadCount (<[userId := 0]> (unreadCount c)) now c in
  (c', saveDoc _id c' chats).

(** [chatSchema.methods.incrementUnread]. *)
Definition incrementUnread (userId : ObjectId) (now : Date) (c : t)
    (chats : list t) : t * list t :=
  let currentCount := unreadOf userId c in
  let c' :=
    setUnreadCount (<[userId := currentCount + 1]> (unreadCount c)) now c in
  (c', saveDoc _id c' chats).

(** [Array.prototype.sort] without a comparator: by the elements' strings. *)
Definition sortIds (ids : list ObjectId) : list ObjectId :=
  merge_sort String.le ids.

(** The filter [{ participants: { $all: ps }, itemId: item }]. *)
Definition concerns (ps : list ObjectId) (item : ObjectId) (c : t) : Prop :=
  Forall (λ p, p ∈ participants c) ps ∧ itemId c = item.

Global Instance concerns_dec ps item c : Decision (concerns ps item c).
Proof. unfold concerns. apply _. Defined.

(** The keys of a chat in the index [{ participants: 1, itemId: 1 }]. *)
Definition indexKeys (c : t) : list (ObjectId * ObjectId) :=
  (λ p, (p, itemId c)) <$> participants c.

(** The unique index refuses [c]: a stored chat holds one of its keys. *)
Definition duplicateKey (c : t) (chats : list t) : Prop :=
  Exists (λ d, Exists (λ k, k ∈ indexKeys d) (indexKeys c)) chats.

Global Instance duplicateKey_dec c chats : Decision (duplicateKey c chats).
Proof. unfold duplicateKey. apply _. Defined.

(** [chatSchema.statics.findOrCreate]; the result is [None] when
    [chat.save()] is rejected with a duplicate key, in which case nothing
    has been written. *)
Definition findOrCreate (userId1 userId2 item : ObjectId) (now : Date)
    (newId : ObjectId) (chats : list t) : option t * list t :=
  let ps := sortIds [userId1; userId2] in
  match findOne (concerns ps item) chats with
  | Some chat => (Some chat, chats)
  | None =>
      let chat :=
        {| _id := newId; participants := ps; itemId := item;
           lastMessage :=
             {| content := None; sender := None; timestamp := now |};
           unreadCount := ∅; isActive := true; startedAt := now;
           lastActivity := now |} in
      if decide (duplicateKey chat chats) then (None, chats)
      else (Some chat, insertDoc chat chats)
  end.

Definition setIsActive (v : bool) (c : t) : t :=
  {| _id := _id c; participants := participants c; itemId := itemId c;
     lastMessage := lastMessage c; unreadCount := unreadCount c;
     isActive := v; startedAt := startedAt c;
     lastActivity := lastActivity c |}.

End Chat.

(** ** models/Message.js

    Source: [src/unnamed/part_000]. The edit and system-action fields, which
    no route touches, are left out. *)

Module Message.

Record ReadReceipt := { userId : ObjectId; readAt : Date }.

Record Place := { lat : Q; lng : Q; address : string }.

Record t := {
  _id : ObjectId;
  chatId : ObjectId;
  sender : ObjectId;
  content : string;
  messageType : string;
  imageUrl : option string;
  imageCaption : option string;
  location : option Place;
  isRead : bool;
  readBy : list ReadReceipt;
  createdAt : Date
}.

Definition messageTypes : list string :=
  ["text"; "image"; "location"; "system"].

Definition setReadBy (r : list ReadReceipt) (m : t) : t :=
  {| _id := _id m; chatId := chatId m; sender := sender m;
     content := content m; messageType := messageType m;
     imageUrl := imageUrl m; imageCaption := imageCaption m;
     location := location m; isRead := isRead m; readBy := r;
     createdAt := createdAt m |}.

(** The schema's validators, run by [save]. *)
Definition validate (m : t) : bool :=
  bool_decide (content m ≠ "")
  && bool_decide (String.length (content m) ≤ 1000)%nat
  && bool_decide (messageType m ∈ messageTypes).

(** [messageSchema.methods.isReadBy]. *)
Definition isReadBy (user : ObjectId) (m : t) : bool :=
  bool_decide (Exists (λ r, userId r = user) (readBy m)).

(** The filter shared by [getUnreadCount] and by the [updateMany] of the
    message listing: a message of the chat, sent by somebody else, without a
    receipt of the user. *)
Definition unreadBy (chat user : ObjectId) (m : t) : Prop :=
  chatId m = chat ∧ sender m ≠ user ∧ ¬ Exists (λ r, userId r = user) (readBy m).

Global Instance unreadBy_dec chat user m : Decision (unreadBy chat user m).
Proof. unfold unreadBy. apply _. Defined.

(** [messageSchema.statics.getUnreadCount]. *)
Definition getUnreadCount (chat user : ObjectId) (messages : list t) : nat :=
  length (filter (unreadBy chat user) messages).

(** The [pre('save')] hook of a new message: the chat's [lastMessage] and
    [lastActivity] are overwritten, then every participant other than the
    sender has the unread counter incremented. *)
Definition preSave (m : t) (now : Date) (chats : list Chat.t) : list Chat.t :=
  let snapshot :=
    {| Chat.content := Some (content m); Chat.sender := Some (sender m);
       Chat.timestamp := createdAt m |} in
  let chats1 :=
    updateById Chat._id (Chat.setLastMessage snapshot (createdAt m))
      (chatId m) chats in
  match findById Chat._id (chatId m) chats1 with
  | Some chat =>
      (foldl (λ st participantId,
                if bool_decide (participantId ≠ sender m)
                then Chat.incrementUnread participantId now st.1 st.2
                else st)
             (chat, chats1) (Chat.participants chat)).2
  | None => chats1
  end.

(** [save()] of a message built with [new Message(...)]: validation, the
    hook, the insertion. [None] stands for the validation error. *)
Definition save (m : t) (now : Date) (chats : list Chat.t)
    (messages : list t) : option (list Chat.t * list t) :=
  if validate m then Some (preSave m now chats, insertDoc m messages)
  else None.

End Message.

(** ** The database and the replies of the routes *)

Record Db := {
  items : list Item.t;
  users : list User.t;
  chats : list Chat.t;
  messages : list Message.t
}.

Definition setItems (v : list Item.t) (db : Db) : Db :=
  {| items := v; users := users db; chats := chats db;
     messages := messages db |}.

Definition setUsers (v : list User.t) (db : Db) : Db :=
  {| items := items db; users := v; chats := chats db;
     messages := messages db |}.

Definition setChats (v : list Chat.t) (db : Db) : Db :=
  {| items := items db; users := users db; chats := v;
     messages := messages db |}.

Definition setMessages (v : list Message.t) (db : Db) : Db :=
  {| items := items db; users := users db; chats := chats db;
     messages := v |}.

(** What a handler sends: [res.status(code).json(...)], with either the
    payload of the success branch or the [message] of an error branch. *)
Inductive Reply (A : Type) : Type :=
  | Sent (code : nat) (payload : A)
  | Failed (code : nat) (message : string).

Arguments Sent {A} code payload.
Arguments Failed {A} code message.

Definition serverError {A} : Reply A := Failed 500 "Server error".

(** ** routes/items.js

    Source: the item router, second half of [src/unnamed/part_001]. *)

Module ItemRoutes.

Record Created := { item : Item.t; potentialMatches : nat }.

(** [field ? JSON.parse(field) : fallback]. *)
Definition parsedOr {A} (field : option string) (parse : string → option A)
    (fallback : A) : option A :=
  if truthy field then field ≫= parse else Some fallback.

Definition toImage (stored : string * string) : Image :=
  {| url := stored.1; publicId := stored.2; caption := "" |}.

(** The handler of [POST /api/items] up to [new Item({...})]: the fields
    are parsed, the files uploaded and the document built with the schema's
    defaults. The body of a multipart request maps field names to strings.
    [None] when one of these steps throws; an invalid [date] is reported at
    [save], with the same reply. *)
Definition build `{Platform} (userId : ObjectId) (body : gmap string string)
    (files : list string) (now : Date) (newId : ObjectId) : option Item.t :=
  parsedLocation ← body !! "location" ≫= parseLocation;
  parsedTags ← parsedOr (body !! "tags") parseTags [];
  parsedReward ←
    parsedOr (body !! "reward") (λ v, Some <$> parseReward v) None;
  parsedContactInfo ←
    parsedOr (body !! "contactInfo") (λ v, Some <$> parseContactInfo v) None;
  uploadedImages ← mapM (λ file, toImage <$> upload file) files;
  date ← body !! "date" ≫= parseDate;
  Some {| Item._id := newId;
          Item.title := trim (default "" (body !! "title"));
          Item.description := default "" (body !! "description");
          Item.type := default "lost" (body !! "type");
          Item.category := default "" (body !! "category");
          Item.images := uploadedImages;
          Item.location := parsedLocation;
          Item.date := date;
          Item.status := "active";
          Item.isResolved := false;
          Item.resolvedAt := None;
          Item.resolvedBy := None;
          Item.contactInfo := parsedContactInfo;
          Item.reward := parsedReward;
          Item.tags := parsedTags;
          Item.views := 0;
          Item.potentialMatches := [];
          Item.postedBy := userId;
          Item.expiresAt := Item.defaultExpiresAt now;
          Item.createdAt := now |}.

(** [router.post('/')]. *)
Definition create `{Platform} (userId : ObjectId) (body : gmap string string)
    (files : list string) (now : Date) (newId : ObjectId) (db : Db)
  : Reply Created * Db :=
  match build userId body files now newId with
  | None => (serverError, db)
  | Some item =>
      if negb (Item.validate item) then (serverError, db) else
      let db1 := setItems (insertDoc item (items db)) db in
      let db2 :=
        setUsers
          (updateById User._id
             (λ u, User.setItemsPosted (User.itemsPosted u + 1) u)
             userId (users db1)) db1 in
      match findById User._id userId (users db2) with
      | None => (serverError, db2)
      | Some user =>
          let db3 := setUsers (User.addPoints 10 now user (users db2)).2 db2 in
          let potentialMatches :=
            Item.findPotentialMatches (Item._id item) (Item.type item)
              (Item.category item) (coordinates (Item.location item))
              (items db3) in
          let st :=
            foldl (λ st m, Item.addPotentialMatch (Item._id m) 0.7 now st.1 st.2)
                  (item, items db3) potentialMatches in
          (Sent 201 {| item := st.1;
                       potentialMatches := length potentialMatches |},
           setItems st.2 db3)
      end
  end.

(** [if (field) item.field = parse(field)]; [None] when the parse throws. *)
Definition whenSet {A} (field : option string) (parse : string → option A)
    (set : A → Item.t → Item.t) (i : Item.t) : option Item.t :=
  if truthy field then (λ a, set a i) <$> (field ≫= parse) else Some i.

(** The assignments of [router.put('/:id')], in order. *)
Definition assign `{Platform} (body : gmap string string) (i : Item.t)
  : option Item.t :=
  i ← whenSet (body !! "title") (λ v, Some (trim v)) Item.setTitle i;
  i ← whenSet (body !! "description") Some Item.setDescription i;
  i ← whenSet (body !! "category") Some Item.setCategory i;
  i ← whenSet (body !! "location") parseLocation Item.setLocation i;
  i ← whenSet (body !! "tags") parseTags Item.setTags i;
  i ← whenSet (body !! "reward") (λ v, Some <$> parseReward v) Item.setReward i;
  whenSet (body !! "contactInfo") (λ v, Some <$> parseContactInfo v)
    Item.setContactInfo i.

(** [router.put('/:id')]. *)
Definition update `{Platform} (userId id : ObjectId)
    (body : gmap string string) (db : Db) : Reply Item.t * Db :=
  match findById Item._id id (items db) with
  | None => (Failed 404 "Item not found", db)
  | Some item =>
      if bool_decide (Item.postedBy item ≠ userId)
      then (Failed 403 "Not authorized", db)
      else match assign body item with
           | None => (serverError, db)
           | Some item' =>
               if Item.validate item'
               then (Sent 200 item',
                     setItems (saveDoc Item._id item' (items db)) db)
               else (serverError, db)
           end
  end.

(** [router.put('/:id/resolve')]. *)
Definition resolve (userId id : ObjectId) (now : Date) (db : Db)
  : Reply Item.t * Db :=
  match findById Item._id id (items db) with
  | None => (Failed 404 "Item not found", db)
  | Some item =>
      if bool_decide (Item.postedBy item ≠ userId)
      then (Failed 403 "Not authorized", db)
      else
        let st := Item.markAsResolved userId now item (items db) in
        let db1 := setItems st.2 db in
        match findById User._id userId (users db1) with
        | None => (serverError, db1)
        | Some user =>
            (Sent 200 st.1,
             setUsers (User.addPoints 50 now user (users db1)).2 db1)
        end
  end.

(** [router.get('/:id')]: every fetch counts as a view. *)
Definition getItem (id : ObjectId) (db : Db) : Reply Item.t * Db :=
  match findById Item._id id (items db) with
  | None => (Failed 404 "Item not found", db)
  | Some item =>
      let item' := Item.setViews (Item.views item + 1) item in
      (Sent 200 item', setItems (saveDoc Item._id item' (items db)) db)
  end.

(** [router.delete('/:id')]. [destroy] stands for
    [cloudinary.uploader.destroy]: it tells whether the image host accepted
    the removal of the image with the given [publicId]; a refusal throws. *)
Definition deleteItem (destroy : string → bool) (userId id : ObjectId)
    (db : Db) : Reply string * Db :=
  match findById Item._id id (items db) with
  | None => (Failed 404 "Item not found", db)
  | Some item =>
      if bool_decide (Item.postedBy item ≠ userId)
      then (Failed 403 "Not authorized", db)
      else if forallb (λ image, bool_decide (publicId image = "")
                                || destroy (publicId image))
                      (Item.images item)
      then (Sent 200 "Item deleted successfully",
            setItems (deleteById Item._id id (items db)) db)
      else (serverError, db)
  end.

(** [router.get('/matches/:itemId')]: the match finder run on the stored
    item. The handler writes nothing. *)
Definition matches `{Platform} (id : ObjectId) (db : Db)
  : Reply (list Item.t) :=
  match findById Item._id id (items db) with
  | None => Failed 404 "Item not found"
  | Some item =>
      Sent 200
        (Item.findPotentialMatches (Item._id item) (Item.type item)
           (Item.category item) (coordinates (Item.location item))
           (items db))
  end.

End ItemRoutes.

(** ** routes/chat.js

    Source: [src/unnamed/part_002]. The body of a chat request is JSON; its
    destructured fields are the fields of the body records below. The
    socket broadcast of a sent message is outside the database and is not
    embedded. *)

Module ChatRoutes.

Record StartBody := { itemId : option ObjectId; message : option string }.

Record SendBody := {
  content : option string;
  messageType : option string;
  imageUrl : option string;
  imageCaption : option string;
  location : option Message.Place
}.

Record Pagination := {
  currentPage : Z;
  totalPages : option Z;
  totalMessages : nat;
  hasNext : bool;
  hasPrev : bool
}.

Record Page := { pageMessages : list Message.t; pagination : Pagination }.

(** [new Message({...})] with the schema's defaults. *)
Definition newMessage (newId chat from : ObjectId) (text kind : string)
    (image caption : option string) (place : option Message.Place)
    (now : Date) : Message.t :=
  {| Message._id := newId; Message.chatId := chat; Message.sender := from;
     Message.content := text; Message.messageType := kind;
     Message.imageUrl := image; Message.imageCaption := caption;
     Message.location := place; Message.isRead := false;
     Message.readBy := []; Message.createdAt := now |}.

(** [router.post('/start')] once the item is found and the requester is not
    its poster: the chat is found or created and, when the request carries
    a message other than the chat's last one, that message is saved. A
    rejected [findOrCreate] ends in the handler's [catch]. *)
Definition startChat (userId : ObjectId) (item : Item.t)
    (itemId : ObjectId) (message : option string) (now : Date)
    (newChatId newMessageId : ObjectId) (db : Db)
  : Reply (option Chat.t) * Db :=
  let st :=
    Chat.findOrCreate userId (Item.postedBy item) itemId now newChatId
      (chats db) in
  match st.1 with
  | None => (serverError, db)
  | Some chat =>
      let db1 := setChats st.2 db in
      if truthy message
         && negb (bool_decide (Chat.content (Chat.lastMessage chat) = message))
      then
        let m :=
          newMessage newMessageId (Chat._id chat) userId (default "" message)
            "text" None None None now in
        match Message.save m now (chats db1) (messages db1) with
        | None => (serverError, db1)
        | Some (cs, ms) =>
            (Sent 200 (findById Chat._id (Chat._id chat) cs),
             setMessages ms (setChats cs db1))
        end
      else (Sent 200 (findById Chat._id (Chat._id chat) (chats db1)), db1)
  end.

(** [router.post('/start')]. An absent [itemId] finds no item. *)
Definition start (userId : ObjectId) (body : StartBody) (now : Date)
    (newChatId newMessageId : ObjectId) (db : Db)
  : Reply (option Chat.t) * Db :=
  match itemId body with
  | None => (Failed 404 "Item not found", db)
  | Some i =>
      match findById Item._id i (items db) with
      | None => (Failed 404 "Item not found", db)
      | Some item =>
          if bool_decide (Item.postedBy item = userId)
          then (Failed 400 "Cannot start chat with yourself", db)
          else startChat userId item i (message body) now newChatId
                 newMessageId db
      end
  end.

(** [sort({ createdAt: -1 })]. *)
Definition newestFirst (a b : Message.t) : Prop :=
  Message.createdAt b ≤ Message.createdAt a.

Global Instance newestFirst_dec : RelDecision newestFirst.
Proof. intros a b. unfold newestFirst. apply _. Defined.

(** [limit(n)] of a query: zero lifts the limit, a negative number counts
    as its absolute value. *)
Definition queryLimit {A} (n : Z) (l : list A) : list A :=
  if bool_decide (n = 0) then l else take (Z.abs_nat n) l.

(** [Math.ceil(total / limit)]; a division by zero is not a number. *)
Definition ceilDiv (total limit : Z) : option Z :=
  if bool_decide (limit = 0) then None
  else Some (- ((- total) `div` limit)).

(** The entry pushed on [readBy]. *)
Definition receipt (userId : ObjectId) (now : Date) : Message.ReadReceipt :=
  {| Message.userId := userId; Message.readAt := now |}.

(** [router.get('/:chatId/messages')]; [page] and [limit] are the query
    parameters after [parseInt], absent ones take the defaults. *)
Definition listMessages (userId chatId : ObjectId) (page limit : option Z)
    (now : Date) (db : Db) : Reply Page * Db :=
  let page := default 1 page in
  let limit := default 50 limit in
  match findById Chat._id chatId (chats db) with
  | None => (Failed 404 "Chat not found", db)
  | Some chat =>
      if negb (bool_decide (userId ∈ Chat.participants chat))
      then (Failed 403 "Not authorized to access this chat", db)
      else
        let skip := (page - 1) * limit in
        if bool_decide (skip < 0) then (serverError, db) else
        let ofChat := filter (λ m, Message.chatId m = chatId) (messages db) in
        let found :=
          queryLimit limit
            (drop (Z.to_nat skip) (merge_sort newestFirst ofChat)) in
        let total := length ofChat in
        let marked :=
          updateMany (Message.unreadBy chatId userId)
            (λ m, Message.setReadBy
                    (Message.readBy m ++ [receipt userId now]) m)
            (messages db) in
        let st := Chat.markAsRead userId now chat (chats db) in
        (Sent 200
           {| pageMessages := reverse found;
              pagination :=
                {| currentPage := page;
                   totalPages := ceilDiv (Z.of_nat total) limit;
                   totalMessages := total;
                   hasNext :=
                     bool_decide (skip + Z.of_nat (length found)
                                  < Z.of_nat total);
                   hasPrev := bool_decide (page > 1) |} |},
         setChats st.2 (setMessages marked db))
  end.

(** [new Message(messageData)] of [router.post('/:chatId/messages')]. *)
Definition messageOf (userId chatId : ObjectId) (body : SendBody)
    (now : Date) (newId : ObjectId) : Message.t :=
  let kind := default "text" (messageType body) in
  let withImage := bool_decide (kind = "image") && truthy (imageUrl body) in
  newMessage newId chatId userId (default "" (content body)) kind
    (if withImage then imageUrl body else None)
    (if withImage then imageCaption body else None)
    (if bool_decide (kind = "location") then location body else None)
    now.

(** [router.post('/:chatId/messages')]. *)
Definition sendMessage (userId chatId : ObjectId) (body : SendBody)
    (now : Date) (newId : ObjectId) (db : Db) : Reply Message.t * Db :=
  match findById Chat._id chatId (chats db) with
  | None => (Failed 404 "Chat not found", db)
  | Some chat =>
      if negb (bool_decide (userId ∈ Chat.participants chat))
      then (Failed 403 "Not authorized to send messages in this chat", db)
      else
        let m := messageOf userId chatId body now newId in
        match Message.save m now (chats db) (messages db) with
        | None => (serverError, db)
        | Some (cs, ms) => (Sent 200 m, setMessages ms (setChats cs db))
        end
  end.

(** [router.put('/:chatId/read')]. *)
Definition markRead (userId chatId : ObjectId) (now : Date) (db : Db)
  : Reply string * Db :=
  match findById Chat._id chatId (chats db) with
  | None => (Failed 404 "Chat not found", db)
  | Some chat =>
      if negb (bool_decide (userId ∈ Chat.participants chat))
      then (Failed 403 "Not authorized to access this chat", db)
      else
        (Sent 200 "Chat marked as read",
         setChats (Chat.markAsRead userId now chat (chats db)).2 db)
  end.

(** [sort({ lastActivity: -1 })]. *)
Definition latestFirst (a b : Chat.t) : Prop :=
  Chat.lastActivity b ≤ Chat.lastActivity a.

Global Instance latestFirst_dec : RelDecision latestFirst.
Proof. intros a b. unfold latestFirst. apply _. Defined.

(** The filter [{ participants: userId, isActive: true }]. *)
Definition activeFor (userId : ObjectId) (c : Chat.t) : Prop :=
  userId ∈ Chat.participants c ∧ Chat.isActive c = true.

Global Instance activeFor_dec userId c : Decision (activeFor userId c).
Proof. unfold activeFor. apply _. Defined.

(** [router.get('/')]: the requester's active chats, latest activity first,
    each with the number of its messages the requester has not read. *)
Definition getChats (userId : ObjectId) (db : Db) : list (Chat.t * nat) :=
  (λ chat, (chat, Message.getUnreadCount (Chat._id chat) userId (messages db)))
    <$> merge_sort latestFirst (filter (activeFor userId) (chats db)).

(** [router.delete('/:chatId')]: the chat is archived, not removed. *)
Definition archive (userId chatId : ObjectId) (db : Db) : Reply string * Db :=
  match findById Chat._id chatId (chats db) with
  | None => (Failed 404 "Chat not found", db)
  | Some chat =>
      if negb (bool_decide (userId ∈ Chat.participants chat))
      then (Failed 403 "Not authorized to delete this chat", db)
      else
        (Sent 200 "Chat archived successfully",
         setChats (saveDoc Chat._id (Chat.setIsActive false chat) (chats db))
           db)
  end.

(** [router.get('/unread-count')]: the unread messages of the requester,
    summed over the requester's active chats. *)
Definition unreadCount (userId : ObjectId) (db : Db) : nat :=
  foldl (λ totalUnread chat,
           totalUnread
           + Message.getUnreadCount (Chat._id chat) userId (messages db))%nat
        0%nat (filter (activeFor userId) (chats db)).

End ChatRoutes.

(** ** routes/notifications.js

    Source: the notification router, last part of [src/unnamed/part_001].
    The listing of [GET /], which stamps every entry with its own clock
    reading, is not embedded. *)

Module NotificationRoutes.

Record AlertBody := {
  itemId : option ObjectId;
  matchedItemId : option ObjectId;
  confidence : Q
}.

Record Alert := {
  alertItem : ObjectId;
  alertMatch : ObjectId;
  alertConfidence : Q
}.

(** [router.post('/match-alert')]. The two documents are fetched before
    either is written, and each write is that of its own document; the
    embedding follows the code for two different items (a request that names
    one item twice makes the handler write two copies of one document, which
    a whole-document write does not render). The email notices are only
    logged, and a missing [confidence] is not represented. *)
Definition matchAlert (userId : ObjectId) (body : AlertBody) (now : Date)
    (db : Db) : Reply Alert * Db :=
  match itemId body ≫= λ i, findById Item._id i (items db),
        matchedItemId body ≫= λ i, findById Item._id i (items db) with
  | Some item, Some matchedItem =>
      if bool_decide (Item.postedBy item ≠ userId)
         && bool_decide (Item.postedBy matchedItem ≠ userId)
      then (Failed 403 "Not authorized", db)
      else
        let items1 :=
          (Item.addPotentialMatch (Item._id matchedItem) (confidence body)
             now item (items db)).2 in
        let items2 :=
          (Item.addPotentialMatch (Item._id item) (confidence body) now
             matchedItem items1).2 in
        let db2 := setItems items2 db in
        match findById User._id (Item.postedBy item) (users db2),
              findById User._id (Item.postedBy matchedItem) (users db2) with
        | Some itemOwner, Some matchedItemOwner =>
            (Sent 200 {| alertItem := Item._id item;
                         alertMatch := Item._id matchedItem;
                         alertConfidence := confidence body |}, db2)
        | _, _ => (serverError, db2)
        end
  | _, _ => (Failed 404 "Item not found", db)
  end.

(** [router.get('/matches/:itemId')]: the match finder, for the owner of
    the item only. *)
Definition itemMatches `{Platform} (userId id : ObjectId) (db : Db)
  : Reply (list Item.t) :=
  match findById Item._id id (items db) with
  | None => Failed 404 "Item not found"
  | Some item =>
      if bool_decide (Item.postedBy item ≠ userId)
      then Failed 403 "Not authorized"
      else
        Sent 200
          (Item.findPotentialMatches (Item._id item) (Item.type item)
             (Item.category item) (coordinates (Item.location item))
             (items db))
  end.

(** The filter [{ postedBy: userId, status: 'active' }]. *)
Definition activeOf (userId : ObjectId) (i : Item.t) : Prop :=
  Item.postedBy i = userId ∧ Item.status i = "active".

Global Instance activeOf_dec userId i : Decision (activeOf userId i).
Proof. unfold activeOf. apply _. Defined.

(** [router.get('/unread-count')]: the matches of the requester's active
    items, counted item by item. *)
Definition unreadCount `{Platform} (userId : ObjectId) (db : Db) : nat :=
  foldl (λ totalMatches item,
           totalMatches
           + length (Item.findPotentialMatches (Item._id item) (Item.type item)
                       (Item.category item) (coordinates (Item.location item))
                       (items db)))%nat
        0%nat (filter (activeOf userId) (items db)).

End NotificationRoutes.

(** *** What the specification says about levels *)

(** The level a points total stands for. *)
Definition levelOf (points : Z) : Z := points `div` 100 + 1.

Definition levelConsistent (u : User.t) : Prop :=
  User.level u = levelOf (User.points u).

(** Number of 100-point boundaries between two totals. *)
Definition boundariesCrossed (before after : Z) : Z :=
  after `div` 100 - before `div` 100.

(** The badges a run of calls earns when every call that crosses at least one
    boundary earns one badge, named after the level reached. *)
Fixpoint badgesOfRun (calls : list (Z * Date)) (points : Z) : list User.Badge :=
  match calls with
  | [] => []
  | (amount, now) :: rest =>
      (if bool_decide (0 < boundariesCrossed points (points + amount))
       then [User.levelBadge (levelOf (points + amount)) now] else [])
      ++ badgesOfRun rest (points + amount)
  end.

(** *** The part of an item that an edit leaves alone *)

(** Every field other than title, description, category, location, tags,
    reward and contactInfo. *)
Definition untouchedByUpdate (i : Item.t) :=
  (Item._id i, Item.type i, Item.status i, Item.postedBy i, Item.views i,
   Item.images i, Item.expiresAt i, Item.potentialMatches i,
   (Item.date i, Item.isResolved i, Item.resolvedAt i, Item.resolvedBy i,
    Item.createdAt i)).

(** *** The entry a match leaves in [potentialMatches] *)

Definition matchEntry (conf : Q) (now : Date) (m : Item.t)
  : Item.PotentialMatch :=
  {| Item.itemId := Item._id m; Item.confidence := conf;
     Item.matchedAt := now |}.

(** *** Read receipts *)

(** What the [updateMany] of the listing does to one message. *)
Definition markFor (chat user : ObjectId) (now : Date) (m : Message.t)
  : Message.t :=
  if decide (Message.unreadBy chat user m)
  then Message.setReadBy (Message.readBy m ++ [ChatRoutes.receipt user now]) m
  else m.

(** *** Repeated fetches *)

(** The database after [n] fetches of the same item in a row. *)
Fixpoint fetched (n : nat) (id : ObjectId) (db : Db) : Db :=
  match n with
  | O => db
  | S k => (ItemRoutes.getItem id (fetched k id db)).2
  end.

(** *** Stored items and the schema *)

(** Every stored item passes the validators of its schema. *)
Definition itemsValid (db : Db) : Prop :=
  Forall (λ i, Item.validate i = true) (items db).

(** *** Invariants of the chat store *)

(** No message holds two receipts of one user. *)
Definition receiptsUnique (db : Db) : Prop :=
  Forall (λ m, NoDup (Message.userId <$> Message.readBy m)) (messages db).

(** The counter kept in the chat for each participant is the number of
    messages of the chat that the participant has not read. *)
Definition countersAgree (chat : Chat.t) (msgs : list Message.t) : Prop :=
  ∀ B, B ∈ Chat.participants chat →
       Chat.unreadOf B chat =
         Z.of_nat (Message.getUnreadCount (Chat._id chat) B msgs).

(** What the message hook never changes in a chat. *)
Definition chatShape (c : Chat.t) : ObjectId * list ObjectId * ObjectId * bool :=
  (Chat._id c, Chat.participants c, Chat.itemId c, Chat.isActive c).

(** Every chat is between two different users. *)
Definition chatsOfTwo (db : Db) : Prop :=
  Forall (λ c, ∃ A B, A ≠ B ∧ Chat.participants c ≡ₚ [A; B]) (chats db).

(** Two different users have at most one chat about an item. *)
Definition pairUnique (cs : list Chat.t) : Prop :=
  ∀ A B item, A ≠ B →
    (length (filter (Chat.concerns [A; B] item) cs) ≤ 1)%nat.

(** *** Distances between places *)

(** The distance in metres between two places, each given by its latitude
    and longitude. *)
Definition distanceBetween `{Platform} (a b : Coordinates) : Q :=
  geoDistance (Item.queryPoint a) (Item.queryPoint b).

(** ** Sample data *)

Module Samples.

Definition alice : User.t := User.fresh "a1" "alice@example.org" "Alice".
Definition bob : User.t := User.fresh "b2" "bob@example.org" "Bob".

(** Three places whose latitude and longitude nearly agree, so that the
    index, which reads a stored pair in field order, puts them close to
    where they are. *)
Definition square : Location :=
  {| address := "1 Main Square"; city := "Springfield"; state := "";
     country := ""; coordinates := {| lat := 20; lng := 20 |} |}.

Definition station : Location :=
  {| address := "Central Station"; city := "Springfield"; state := "";
     country := ""; coordinates := {| lat := 20.01; lng := 20 |} |}.

Definition harbour : Location :=
  {| address := "Harbour Road"; city := "Shelbyville"; state := "";
     country := ""; coordinates := {| lat := 22; lng := 20 |} |}.

(** A market in Bengaluru, and the place whose latitude and longitude are
    the market's longitude and latitude, in the Barents Sea. *)
Definition market : Location :=
  {| address := "KR Market"; city := "Bengaluru"; state := "";
     country := ""; coordinates := {| lat := 13; lng := 77 |} |}.

Definition barents : Location :=
  {| address := "Barents Sea"; city := "Offshore"; state := "";
     country := ""; coordinates := {| lat := 77; lng := 13 |} |}.

(** A stand-in for the measure of the index: a taxicab distance at 111320
    metres per degree. *)
Definition taxicab (p q : Point) : Q :=
  (111320 * (Qabs (latitude p - latitude q)
             + Qabs (longitude p - longitude q)))%Q.

(** A stand-in for the platform: the taxicab distance, which obeys the two
    laws asked of [geoDistance], and parsers that know a few texts. *)
Global Instance platform : Platform.
Proof.
  refine {|
    geoDistance := taxicab;
    parseLocation s :=
      if bool_decide (s = "square") then Some square
      else if bool_decide (s = "station") then Some station
      else if bool_decide (s = "harbour") then Some harbour
      else None;
    parseTags s := Some (String.words s);
    parseReward s := None;
    parseContactInfo s := None;
    parseDate s :=
      if bool_decide (s = "2024-05-01") then Some 1714521600000 else None;
    upload file := Some ("https://images.example.org/" +:+ file, file)
  |}.
  - intros p _. unfold taxicab.
    unfold Qminus. rewrite !Qplus_opp_r. reflexivity.
  - intros p q _ _. unfold taxicab.
    pose proof (Qabs_nonneg (latitude p - latitude q)) as Hlat.
    pose proof (Qabs_nonneg (longitude p - longitude q)) as Hlon.
    apply Qle_trans with (111320 * Qabs (latitude p - latitude q))%Q.
    + apply Qmult_le_compat_r; [done|exact Hlat].
    + apply Qmult_le_l; [done|].
      rewrite <- (Qplus_0_r (Qabs (latitude p - latitude q))) at 1.
      apply Qplus_le_r. exact Hlon.
Defined.

Definition posting (i : ObjectId) (ty cat : string) (where_ : Location)
    (st : string) (owner : ObjectId) : Item.t :=
  {| Item._id := i; Item.title := "Phone"; Item.description := "A phone";
     Item.type := ty; Item.category := cat; Item.images := [];
     Item.location := where_; Item.date := 0; Item.status := st;
     Item.isResolved := false; Item.resolvedAt := None;
     Item.resolvedBy := None; Item.contactInfo := None;
     Item.reward := None; Item.tags := []; Item.views := 0;
     Item.potentialMatches := []; Item.postedBy := owner;
     Item.expiresAt := Item.defaultExpiresAt 0; Item.createdAt := 0 |}.

Definition lostPhone : Item.t :=
  posting "i1" "lost" "Electronics" square "active" "a1".
Definition foundPhone : Item.t :=
  posting "i2" "found" "Electronics" station "active" "b2".
Definition farPhone : Item.t :=
  posting "i3" "found" "Electronics" harbour "active" "b2".
Definition foundRing : Item.t :=
  posting "i4" "found" "Jewelry" square "active" "b2".
Definition oldPhone : Item.t :=
  posting "i5" "found" "Electronics" square "resolved" "b2".

(** A phone lost at the market, one found at the market, and one found in
    the Barents Sea. *)
Definition lostAtMarket : Item.t :=
  posting "k1" "lost" "Electronics" market "active" "a1".
Definition foundAtMarket : Item.t :=
  posting "k2" "found" "Electronics" market "active" "b2".
Definition foundAtSea : Item.t :=
  posting "k3" "found" "Electronics" barents "active" "b2".

Definition marketItems : list Item.t :=
  [lostAtMarket; foundAtMarket; foundAtSea].

Definition talk : Chat.t :=
  {| Chat._id := "c1"; Chat.participants := ["a1"; "b2"];
     Chat.itemId := "i1";
     Chat.lastMessage :=
       {| Chat.content := None; Chat.sender := None; Chat.timestamp := 0 |};
     Chat.unreadCount := ∅; Chat.isActive := true; Chat.startedAt := 0;
     Chat.lastActivity := 0 |}.

Definition note (i from : ObjectId) (text : string) (at_ : Date)
  : Message.t :=
  ChatRoutes.newMessage i "c1" from text "text" None None None at_.

Definition db0 : Db :=
  {| items := [lostPhone; foundPhone; farPhone; foundRing; oldPhone];
     users := [alice; bob];
     chats := [talk];
     messages := [note "m1" "b2" "Is it black?" 1;
                  note "m2" "b2" "With a red case?" 2] |}.

(** The fields of a posting form. *)
Definition form : gmap string string :=
  {[ "title" := " Lost phone "; "description" := "Black, red case";
     "type" := "lost"; "category" := "Electronics";
     "location" := "square"; "date" := "2024-05-01";
     "tags" := "phone black" ]}.

Definition posted : Item.t :=
  default lostPhone (ItemRoutes.build "a1" form ["photo.jpg"] 1000 "i9").

End Samples.

(** * Properties *)

(** ** Levels and badges *)

Lemma addPointsDoc_points amount now u :
  User.points (User.addPointsDoc amount now u) = User.points u + amount.
Proof. unfold User.addPointsDoc. by case_bool_decide. Qed.

Lemma addPointsDoc_consistent amount now u :
  levelConsistent u → 0 ≤ amount →
  levelConsistent (User.addPointsDoc amount now u).
Proof.
  unfold levelConsistent, levelOf, User.addPointsDoc. intros Hu Ha.
  case_bool_decide as Hlt; simpl; [done|].
  assert (User.points u `div` 100 ≤ (User.points u + amount) `div` 100)
    by (apply Z.div_le_mono; lia).
  lia.
Qed.

Lemma addPointsDoc_badges amount now u :
  levelConsistent u →
  User.badges (User.addPointsDoc amount now u) =
    User.badges u ++
    (if bool_decide (0 < boundariesCrossed (User.points u) (User.points u + amount))
     then [User.levelBadge (levelOf (User.points u + amount)) now] else []).
Proof.
  unfold levelConsistent, levelOf, boundariesCrossed, User.addPointsDoc.
  intros Hu. rewrite Hu.
  repeat case_bool_decide; simpl; try done; try lia.
  by rewrite app_nil_r.
Qed.

(** C7 (as amended): starting from a user whose level agrees with the points,
    and for awards that are never negative, the level agrees with the points
    after every call of a run, and the badges appended by the run are one
    ["Level N"] badge per call that crossed at least one boundary, [N] being
    the level reached by that call. *)
Theorem addPoints_level_and_badges calls u users :
  levelConsistent u →
  Forall (λ c, 0 ≤ c.1) calls →
  Forall levelConsistent (User.addPointsRun calls u users) ∧
  User.badges (default u (last (User.addPointsRun calls u users))) =
    User.badges u ++ badgesOfRun calls (User.points u).
Proof.
  revert u users. induction calls as [|[amount now] rest IH]; intros u users Hu Hc.
  - split; [constructor|]. simpl. by rewrite app_nil_r.
  - apply Forall_cons in Hc as [Ha Hc]. simpl in Ha.
    pose proof (addPointsDoc_consistent amount now u Hu Ha) as Hu'.
    destruct (IH (User.addPointsDoc amount now u)
                 (saveDoc User._id (User.addPointsDoc amount now u) users)
                 Hu' Hc) as [IH1 IH2].
    split; [by constructor|].
    cbn [User.addPointsRun User.addPoints badgesOfRun].
    rewrite addPointsDoc_points in IH2.
    rewrite addPointsDoc_badges in IH2 by done.
    rewrite app_assoc, <- IH2.
    rewrite last_cons. by destruct (last _).
Qed.

Lemma addPoints_level_and_badges_witness :
  Forall levelConsistent
    (User.addPointsRun [(10, 5); (250, 6)] Samples.alice [Samples.alice]) ∧
  User.badges (default Samples.alice
    (last (User.addPointsRun [(10, 5); (250, 6)] Samples.alice [Samples.alice]))) =
    User.badges Samples.alice ++ badgesOfRun [(10, 5); (250, 6)] (User.points Samples.alice).
Proof.
  apply (addPoints_level_and_badges [(10, 5); (250, 6)] Samples.alice [Samples.alice]).
  - reflexivity.
  - repeat constructor; simpl; lia.
Defined.

(** C7 (as stated) fails: one call that takes a fresh user from 0 to 250 points
    crosses two boundaries and appends a single badge. *)
Lemma addPoints_one_badge_per_call :
  let u := Samples.alice in
  let u' := (User.addPoints 250 7 u [u]).1 in
  boundariesCrossed (User.points u) (User.points u') = 2 ∧
  User.name <$> User.badges u' = ["Level 3"] ∧
  Z.of_nat (length (User.badges u')) ≠
    Z.of_nat (length (User.badges u)) +
    boundariesCrossed (User.points u) (User.points u').
Proof. vm_compute. split; [done|]. split; [done|]. discriminate. Qed.

(** ** The match finder *)

Section NearFacts.
Context `{Platform} (origin : Coordinates).

Global Instance nearer_total : Total (Item.nearer origin).
Proof.
  intros a b. unfold Item.nearer.
  rewrite !Is_true_true, !Qle_bool_iff.
  destruct (Qlt_le_dec (Item.distanceFrom origin a) (Item.distanceFrom origin b));
    [left; by apply Qlt_le_weak | by right].
Qed.

Global Instance nearer_trans : Transitive (Item.nearer origin).
Proof.
  intros a b c. unfold Item.nearer.
  rewrite !Is_true_true, !Qle_bool_iff. apply Qle_trans.
Qed.

Lemma near_elem maxDistance items i :
  i ∈ Item.near origin maxDistance items ↔
  (Item.distanceFrom origin i <= maxDistance)%Q ∧ i ∈ items.
Proof.
  unfold Item.near. rewrite merge_sort_Permutation, list_elem_of_filter.
  by rewrite Is_true_true, Qle_bool_iff.
Qed.

Lemma near_sorted maxDistance items :
  StronglySorted (Item.nearer origin) (Item.near origin maxDistance items).
Proof. apply StronglySorted_merge_sort; apply _. Qed.
End NearFacts.

Lemma StronglySorted_take {A} (R : relation A) n l :
  StronglySorted R l → StronglySorted R (take n l).
Proof.
  intros Hl. revert n. induction Hl as [|x l Hl IH Hx]; intros [|n]; simpl;
    try constructor; auto.
  eapply Forall_forall. intros y Hy. eapply Forall_forall in Hx; [done|].
  by eapply subseteq_take.
Qed.

Lemma oppositeType_ne ty : Item.oppositeType ty ≠ ty.
Proof. unfold Item.oppositeType. by case_bool_decide; simplify_eq. Qed.

(** X25: [findPotentialMatches] returns at most ten documents, in ascending
    order of the distance that the index measures; each of them is a stored
    item other than the one asked about, of the opposite type (hence never
    of the given type), in the given category, with status ["active"], and
    at most 50000 metres away by that measure, which is taken between the
    query point and the stored pair read in field order. *)
Theorem findPotentialMatches_sound `{Platform} self ty cat origin items :
  let found := Item.findPotentialMatches self ty cat origin items in
  (length found ≤ 10)%nat ∧
  StronglySorted (Item.nearer origin) found ∧
  ∀ i, i ∈ found →
    i ∈ items ∧
    Item._id i ≠ self ∧
    Item.type i = Item.oppositeType ty ∧ Item.type i ≠ ty ∧
    Item.category i = cat ∧
    Item.status i = "active" ∧
    (Item.distanceFrom origin i <= 50000)%Q.
Proof.
  unfold Item.findPotentialMatches. cbn zeta. split; [|split].
  - rewrite length_take. lia.
  - apply StronglySorted_take, near_sorted.
  - intros i Hi. apply subseteq_take in Hi.
    apply near_elem in Hi as [Hd Hi].
    apply list_elem_of_filter in Hi as [(Hself & Hty & Hcat & Hst) Hi].
    repeat split; try done.
    rewrite Hty. apply oppositeType_ne.
Qed.

(** Nothing nearer is left out: a stored item that passes the filter and is
    not returned is at least as far as each of the ten that are. *)
Lemma findPotentialMatches_nearest `{Platform} self ty cat origin items i :
  i ∈ items → Item._id i ≠ self → Item.type i = Item.oppositeType ty →
  Item.category i = cat → Item.status i = "active" →
  (Item.distanceFrom origin i <= 50000)%Q →
  let found := Item.findPotentialMatches self ty cat origin items in
  i ∈ found ∨
  (length found = 10%nat ∧ ∀ j, j ∈ found → Item.nearer origin j i).
Proof.
  intros Hi Hself Hty Hcat Hst Hd. unfold Item.findPotentialMatches. cbn zeta.
  set (l := Item.near origin 50000 _).
  assert (i ∈ l) as Hl.
  { apply near_elem. split; [done|]. by apply list_elem_of_filter. }
  pose proof (near_sorted origin 50000
                (filter (λ i, Item._id i ≠ self ∧ Item.type i = Item.oppositeType ty
                               ∧ Item.category i = cat ∧ Item.status i = "active")
                        items)) as Hsorted.
  fold l in Hsorted. rewrite <- (take_drop 10 l) in Hl, Hsorted.
  apply elem_of_app in Hl as [Hl|Hl]; [by left|right]. split.
  - apply length_take_le. destruct (decide (10 ≤ length l)%nat); [done|].
    rewrite drop_ge in Hl by lia. by apply not_elem_of_nil in Hl.
  - intros j Hj. by eapply StronglySorted_app_1_elem_of.
Qed.

Example findPotentialMatches_sample :
  Item._id <$>
    Item.findPotentialMatches "i1" "lost" "Electronics"
      (coordinates Samples.square) (items Samples.db0) = ["i2"].
Proof. vm_compute. reflexivity. Qed.

Lemma onSphere_market :
  onSphere (Item.queryPoint (coordinates Samples.market)) ∧
  onSphere (Item.indexedPoint (coordinates Samples.market)).
Proof. unfold onSphere, Qle. cbn. lia. Qed.

(** What the index measures between a queried place and an item stored at
    that very place: at least the length of the arc of latitude between the
    place's latitude and its longitude. *)
Lemma distanceFrom_same_place `{Platform} origin i :
  onSphere (Item.queryPoint origin) → onSphere (Item.indexedPoint origin) →
  coordinates (Item.location i) = origin →
  (111319 * Qabs (lat origin - lng origin) <= Item.distanceFrom origin i)%Q.
Proof.
  intros Hq Hi Hat. unfold Item.distanceFrom. rewrite Hat.
  exact (geoDistance_parallels _ _ Hq Hi).
Qed.

(** C1: a phone is lost at a market in Bengaluru (latitude 13, longitude 77),
    and the active found phones on record are one found at the same market
    and one found in the Barents Sea (latitude 77, longitude 13).
    [findPotentialMatches], asked about the lost phone at the market's
    coordinates, returns the phone found in the Barents Sea, which is more
    than 7000 km from the given coordinates, and leaves out the one found at
    distance zero: the index reads the stored pair [{ lat, lng }] in field
    order, latitude for longitude, while the query gives its point as
    [[lng, lat]]. This holds whatever the platform. *)
Theorem findPotentialMatches_swaps_axes `{Platform} :
  let here := coordinates Samples.market in
  let found :=
    Item.findPotentialMatches "k1" "lost" "Electronics" here
      Samples.marketItems in
  found = [Samples.foundAtSea] ∧
  (50000 < distanceBetween here (coordinates (Item.location Samples.foundAtSea)))%Q ∧
  (7000000 <= distanceBetween here (coordinates (Item.location Samples.foundAtSea)))%Q ∧
  (distanceBetween here (coordinates (Item.location Samples.foundAtMarket)) == 0)%Q.
Proof.
  cbn zeta. destruct onSphere_market as [Hq Hi].
  assert (onSphere (Item.queryPoint (coordinates Samples.barents))) as Hsea.
  { unfold onSphere, Qle. cbn. lia. }
  assert (7000000 <= distanceBetween (coordinates Samples.market)
                       (coordinates Samples.barents))%Q as Hfar.
  { unfold distanceBetween.
    eapply Qle_trans; [|exact (geoDistance_parallels _ _ Hq Hsea)].
    unfold Qle. cbn. lia. }
  split; [|split; [|split]].
  - unfold Item.findPotentialMatches, Item.near.
    assert (filter (λ i, Item._id i ≠ "k1" ∧
                         Item.type i = Item.oppositeType "lost" ∧
                         Item.category i = "Electronics" ∧
                         Item.status i = "active") Samples.marketItems
            = [Samples.foundAtMarket; Samples.foundAtSea]) as ->.
    { vm_compute. reflexivity. }
    rewrite filter_cons_False, filter_cons_True, filter_nil.
    + reflexivity.
    + apply Is_true_true, Qle_bool_iff. unfold Item.distanceFrom.
      change (Item.indexedPoint (coordinates (Item.location Samples.foundAtSea)))
        with (Item.queryPoint (coordinates Samples.market)).
      rewrite (geoDistance_same _ Hq). unfold Qle. cbn. lia.
    + rewrite Is_true_true, Qle_bool_iff. intros Hnear.
      pose proof (distanceFrom_same_place (coordinates Samples.market)
                    Samples.foundAtMarket Hq Hi eq_refl) as Hfrom.
      pose proof (Qle_trans _ _ _ Hfrom Hnear) as Habs.
      revert Habs. unfold Qle. cbn. lia.
  - eapply Qlt_le_trans; [|exact Hfar]. unfold Qlt. cbn. lia.
  - exact Hfar.
  - unfold distanceBetween. exact (geoDistance_same _ Hq).
Qed.

(** ** Collections *)

Section CollectionFacts.
Context {A : Type} (key : A → ObjectId).

Lemma findOne_Some (P : A → Prop) `{∀ d, Decision (P d)} c d :
  findOne P c = Some d → P d ∧ d ∈ c.
Proof.
  unfold findOne. intros Hd.
  apply (list_elem_of_filter P). by apply head_Some_elem_of.
Qed.

Lemma findOne_None (P : A → Prop) `{∀ d, Decision (P d)} c :
  findOne P c = None ↔ Forall (λ d, ¬ P d) c.
Proof.
  unfold findOne. rewrite head_None, Forall_forall. split.
  - intros Hnil d Hd HP. eapply filter_nil_not_elem_of; eauto.
  - intros Hall. induction c as [|d c IH]; [done|].
    rewrite filter_cons. destruct (decide (P d)) as [HP|HP].
    + exfalso. eapply Hall; [left|done].
    + apply IH. intros x Hx. apply Hall. by right.
Qed.

Lemma findOne_app (P : A → Prop) `{∀ d, Decision (P d)} c d :
  findOne P (c ++ [d]) =
    match findOne P c with
    | Some x => Some x
    | None => if decide (P d) then Some d else None
    end.
Proof.
  unfold findOne. rewrite filter_app.
  destruct (filter P c) as [|x l] eqn:E; simpl; [|done].
  rewrite filter_cons. by destruct (decide (P d)).
Qed.

Lemma findById_Some i c d : findById key i c = Some d → key d = i ∧ d ∈ c.
Proof. apply findOne_Some. Qed.

Lemma findById_updateById f i j c :
  (∀ d, key d = j → key (f d) = j) →
  findById key i (updateById key f j c) =
    if decide (i = j) then f <$> findById key i c else findById key i c.
Proof.
  intros Hkey. unfold findById, findOne, updateById.
  induction c as [|d c IH]; [by destruct (decide (i = j))|].
  cbn [updateOne]. destruct (decide (key d = j)) as [Hd|Hd].
  - rewrite !filter_cons. rewrite (Hkey d Hd), Hd.
    destruct (decide (i = j)) as [->|Hi].
    + by rewrite !decide_True.
    + by rewrite !decide_False by done.
  - rewrite !filter_cons. destruct (decide (key d = i)) as [Hdi|Hdi].
    + by rewrite decide_False by congruence.
    + done.
Qed.

Lemma findById_saveDoc d i c :
  findById key i (saveDoc key d c) =
    if decide (i = key d) then (λ _, d) <$> findById key i c
    else findById key i c.
Proof. by apply findById_updateById. Qed.

Lemma fmap_updateOne {B} (g : A → B) (P : A → Prop) `{∀ d, Decision (P d)}
    f c :
  (∀ x, findOne P c = Some x → g (f x) = g x) →
  g <$> updateOne P f c = g <$> c.
Proof.
  unfold findOne. induction c as [|d c IH]; intros Hg; [done|].
  cbn [updateOne]. rewrite filter_cons in Hg.
  destruct (decide (P d)) as [Hd|Hd].
  - rewrite !fmap_cons. by rewrite Hg.
  - rewrite !fmap_cons. by rewrite IH.
Qed.

Lemma findById_saveDoc_eq d c :
  is_Some (findById key (key d) c) →
  findById key (key d) (saveDoc key d c) = Some d.
Proof.
  intros [x Hx]. rewrite findById_saveDoc, Hx.
  by destruct (decide (key d = key d)).
Qed.
End CollectionFacts.

(** ** Resolving an item *)

Lemma addPointsDoc_id amount now u :
  User._id (User.addPointsDoc amount now u) = User._id u.
Proof. unfold User.addPointsDoc. by case_bool_decide. Qed.

Lemma resolve_owner userId id now db item user :
  findById Item._id id (items db) = Some item →
  Item.postedBy item = userId →
  findById User._id userId (users db) = Some user →
  ItemRoutes.resolve userId id now db =
    (Sent 200 (Item.setResolved userId now item),
     setUsers (saveDoc User._id (User.addPointsDoc 50 now user) (users db))
       (setItems
          (saveDoc Item._id (Item.setResolved userId now item) (items db)) db)).
Proof.
  intros Hitem Hown Huser. unfold ItemRoutes.resolve.
  rewrite Hitem. rewrite bool_decide_false by (by intros ?).
  cbn. by rewrite Huser.
Qed.

Lemma resolve_keeps_lookups userId id now db item user :
  findById Item._id id (items db) = Some item →
  Item.postedBy item = userId →
  findById User._id userId (users db) = Some user →
  let db' := (ItemRoutes.resolve userId id now db).2 in
  findById Item._id id (items db') = Some (Item.setResolved userId now item) ∧
  findById User._id userId (users db') = Some (User.addPointsDoc 50 now user).
Proof.
  intros Hitem Hown Huser.
  rewrite (resolve_owner _ _ _ _ _ _ Hitem Hown Huser). cbn.
  destruct (findById_Some _ _ _ _ Hitem) as [Hid _].
  destruct (findById_Some _ _ _ _ Huser) as [Huid _].
  split.
  - rewrite <- Hid at 1.
    change (Item._id item) with (Item._id (Item.setResolved userId now item)).
    apply findById_saveDoc_eq. cbn. rewrite Hid, Hitem. eauto.
  - rewrite <- Huid at 1. rewrite <- (addPointsDoc_id 50 now user).
    apply findById_saveDoc_eq. rewrite addPointsDoc_id, Huid, Huser. eauto.
Qed.

(** C6 (as amended): every [resolve] call by the owner answers with the item
    in status ["resolved"] and awards 50 points; two calls in a row on the
    same item leave the owner with 100 points more than before the first. *)
Theorem resolve_awards_on_every_call userId id now1 now2 db item user :
  findById Item._id id (items db) = Some item →
  Item.postedBy item = userId →
  findById User._id userId (users db) = Some user →
  ∃ item1 db1 user1 item2 db2 user2,
    ItemRoutes.resolve userId id now1 db = (Sent 200 item1, db1) ∧
    Item.status item1 = "resolved" ∧
    findById User._id userId (users db1) = Some user1 ∧
    User.points user1 = User.points user + 50 ∧
    ItemRoutes.resolve userId id now2 db1 = (Sent 200 item2, db2) ∧
    Item.status item2 = "resolved" ∧
    findById User._id userId (users db2) = Some user2 ∧
    User.points user2 = User.points user + 100.
Proof.
  intros Hitem Hown Huser.
  destruct (resolve_keeps_lookups _ _ now1 _ _ _ Hitem Hown Huser)
    as [Hitem1 Huser1].
  assert (Item.postedBy (Item.setResolved userId now1 item) = userId)
    as Hown1 by done.
  destruct (resolve_keeps_lookups _ _ now2 _ _ _ Hitem1 Hown1 Huser1)
    as [_ Huser2].
  pose proof (resolve_owner _ _ now2 _ _ _ Hitem1 Hown1 Huser1) as Hsecond.
  rewrite (resolve_owner _ _ now1 _ _ _ Hitem Hown Huser) in *.
  cbn [snd] in *.
  eexists _, _, _, _, _, _.
  split; [reflexivity|]. split; [done|]. split; [exact Huser1|].
  split; [apply addPointsDoc_points|].
  split; [exact Hsecond|]. split; [done|].
  rewrite Hsecond in Huser2. split; [exact Huser2|].
  rewrite !addPointsDoc_points. lia.
Qed.

Lemma resolve_awards_on_every_call_witness :
  ∃ item1 db1 user1 item2 db2 user2,
    ItemRoutes.resolve "a1" "i1" 10 Samples.db0 = (Sent 200 item1, db1) ∧
    Item.status item1 = "resolved" ∧
    findById User._id "a1" (users db1) = Some user1 ∧
    User.points user1 = User.points Samples.alice + 50 ∧
    ItemRoutes.resolve "a1" "i1" 20 db1 = (Sent 200 item2, db2) ∧
    Item.status item2 = "resolved" ∧
    findById User._id "a1" (users db2) = Some user2 ∧
    User.points user2 = User.points Samples.alice + 100.
Proof.
  apply (resolve_awards_on_every_call "a1" "i1" 10 20 Samples.db0
           Samples.lostPhone Samples.alice); reflexivity.
Defined.

(** C6 (as stated) fails: the second [resolve] of the same item by its owner
    awards 50 points again. *)
Lemma resolve_second_call_awards_again :
  let pointsOf db := User.points <$> findById User._id "a1" (users db) in
  let db1 := (ItemRoutes.resolve "a1" "i1" 10 Samples.db0).2 in
  let db2 := (ItemRoutes.resolve "a1" "i1" 20 db1).2 in
  pointsOf Samples.db0 = Some 0 ∧ pointsOf db1 = Some 50 ∧
  pointsOf db2 = Some 100 ∧ pointsOf db2 ≠ pointsOf db1.
Proof. vm_compute. repeat split; congruence. Qed.

(** ** Editing an item *)

Lemma whenSet_untouched {A} field (parse : string → option A) set i i' :
  (∀ a x, untouchedByUpdate (set a x) = untouchedByUpdate x) →
  ItemRoutes.whenSet field parse set i = Some i' →
  untouchedByUpdate i' = untouchedByUpdate i.
Proof.
  intros Hset. unfold ItemRoutes.whenSet.
  destruct (truthy field); [|by intros [= <-]].
  destruct (field ≫= parse) as [a|]; simpl; [|done].
  intros [= <-]. apply Hset.
Qed.

Lemma assign_untouched `{Platform} body i i' :
  ItemRoutes.assign body i = Some i' →
  untouchedByUpdate i' = untouchedByUpdate i.
Proof.
  unfold ItemRoutes.assign. intros Hi.
  repeat match type of Hi with
         | mbind _ ?m = Some _ =>
             let E := fresh "E" in
             destruct m eqn:E; simpl in Hi; [|done];
             apply whenSet_untouched in E; [|done]
         end.
  apply whenSet_untouched in Hi; [|done]. congruence.
Qed.

(** C10: whoever sends the request and whatever its body holds, the edit of an
    item leaves the type, status, postedBy, views, images, expiresAt and
    potentialMatches of every stored item as they were (together with the
    identifier, the date and the resolution fields), and touches no other
    collection; the item sent back agrees on these fields with the stored
    one. *)
Theorem update_frame `{Platform} userId id (body : gmap string string) db :
  let out := ItemRoutes.update userId id body db in
  untouchedByUpdate <$> items out.2 = untouchedByUpdate <$> items db ∧
  users out.2 = users db ∧ chats out.2 = chats db ∧
  messages out.2 = messages db ∧
  ∀ code item', out.1 = Sent code item' →
    untouchedByUpdate <$> findById Item._id id (items db) =
      Some (untouchedByUpdate item').
Proof.
  unfold ItemRoutes.update. cbn zeta.
  destruct (findById Item._id id (items db)) as [item|] eqn:Hitem;
    [|by repeat split].
  case_bool_decide; [by repeat split|].
  destruct (ItemRoutes.assign body item) as [item'|] eqn:Hassign;
    [|by repeat split].
  apply assign_untouched in Hassign.
  destruct (Item.validate item'); [|by repeat split].
  cbn. repeat split.
  - apply fmap_updateOne. intros x Hx.
    assert (Item._id item' = id) as Hid.
    { destruct (findById_Some _ _ _ _ Hitem) as [<- _].
      by injection Hassign. }
    unfold findById in Hitem. rewrite Hid, Hitem in Hx.
    injection Hx as <-. done.
  - intros code i' [= _ <-]. by rewrite Hassign.
Qed.

Example update_sample :
  let out :=
    ItemRoutes.update "a1" "i1"
      {[ "title" := "  Black phone "; "type" := "found"; "views" := "99";
         "status" := "resolved"; "location" := "station" ]} Samples.db0 in
  (λ i, (Item.title i, city (Item.location i), Item.type i, Item.views i,
         Item.status i)) <$> findById Item._id "i1" (items out.2)
  = Some ("Black phone", "Springfield", "lost", 0, "active").
Proof. vm_compute. reflexivity. Qed.

(** ** Posting an item *)

Lemma findPotentialMatches_NoDup `{Platform} self ty cat origin items :
  NoDup (Item._id <$> items) →
  NoDup (Item._id <$> Item.findPotentialMatches self ty cat origin items).
Proof.
  intros Hitems. unfold Item.findPotentialMatches, Item.near.
  eapply sublist_NoDup; [|apply fmap_sublist, sublist_take].
  rewrite merge_sort_Permutation.
  eapply sublist_NoDup; [|apply fmap_sublist, sublist_filter].
  eapply sublist_NoDup; [|apply fmap_sublist, sublist_filter].
  done.
Qed.

(** The document just inserted is not among its own matches. *)
Lemma findPotentialMatches_insert `{Platform} i ty cat origin items :
  Item.findPotentialMatches (Item._id i) ty cat origin (insertDoc i items) =
  Item.findPotentialMatches (Item._id i) ty cat origin items.
Proof.
  unfold Item.findPotentialMatches, insertDoc.
  rewrite filter_app, filter_cons_False, filter_nil, app_nil_r; [done|].
  by intros [? _].
Qed.

Lemma find_match_None matchId pm :
  matchId ∉ Item.itemId <$> pm →
  find (λ m, bool_decide (Item.itemId m = matchId)) pm = None.
Proof.
  induction pm as [|m pm IH]; [done|].
  rewrite fmap_cons, not_elem_of_cons. intros [Hm Hpm]. simpl.
  rewrite bool_decide_false by congruence. auto.
Qed.

Lemma setPotentialMatches_id i :
  Item.setPotentialMatches (Item.potentialMatches i) i = i.
Proof. by destruct i. Qed.

Lemma addPotentialMatch_run conf now ms : ∀ i c,
  NoDup (Item._id <$> ms) →
  (∀ m, m ∈ ms → Item._id m ∉ Item.itemId <$> Item.potentialMatches i) →
  findById Item._id (Item._id i) c = Some i →
  let st :=
    foldl (λ st m, Item.addPotentialMatch (Item._id m) conf now st.1 st.2)
          (i, c) ms in
  st.1 = Item.setPotentialMatches
           (Item.potentialMatches i ++ (matchEntry conf now <$> ms)) i ∧
  findById Item._id (Item._id i) st.2 = Some st.1.
Proof.
  induction ms as [|m ms IH]; intros i c Hnd Hnew Hstored; cbn zeta.
  - simpl. by rewrite app_nil_r, setPotentialMatches_id.
  - rewrite fmap_cons in Hnd. apply NoDup_cons in Hnd as [Hm Hnd].
    rewrite fmap_cons.
    cbn [foldl fst snd].
    set (i' := Item.setPotentialMatches
                 (Item.potentialMatches i ++ [matchEntry conf now m]) i).
    assert (Item.addPotentialMatch (Item._id m) conf now i c =
            (i', saveDoc Item._id i' c)) as ->.
    { unfold Item.addPotentialMatch.
      by rewrite find_match_None by (apply Hnew; left). }
    destruct (IH i' (saveDoc Item._id i' c)) as [IH1 IH2]; [done| |..].
    + intros x Hx. subst i'. cbn. rewrite fmap_app, elem_of_app.
      intros [Hold|Hthis].
      * eapply Hnew; [by right|done].
      * apply list_elem_of_singleton in Hthis. cbn in Hthis.
        apply Hm. rewrite <- Hthis. by apply list_elem_of_fmap_2.
    + apply findById_saveDoc_eq. change (Item._id i') with (Item._id i).
      rewrite Hstored. eauto.
    + cbn zeta in IH1, IH2. split; [|exact IH2].
      rewrite IH1. subst i'. cbn. by rewrite <- app_assoc.
Qed.



Example create_sample :
  let out :=
    ItemRoutes.create "a1" Samples.form ["photo.jpg"] 1000 "i9" Samples.db0 in
  (λ i, (Item.title i, Item.tags i, Item.itemId <$> Item.potentialMatches i,
         Item.expiresAt i)) <$> findById Item._id "i9" (items out.2)
  = Some ("Lost phone", ["phone"; "black"], ["i2"], 2592001000).
Proof. vm_compute. reflexivity. Qed.

(** ** Finding or creating a chat *)

Lemma sortIds_Permutation l k : l ≡ₚ k → Chat.sortIds l = Chat.sortIds k.
Proof.
  intros Hlk. unfold Chat.sortIds.
  apply (Sorted_unique String.le); try apply Sorted_merge_sort; try apply _.
  by rewrite !merge_sort_Permutation.
Qed.

Lemma concerns_own ps item newId now :
  Chat.concerns ps item
    {| Chat._id := newId; Chat.participants := ps; Chat.itemId := item;
       Chat.lastMessage :=
         {| Chat.content := None; Chat.sender := None; Chat.timestamp := now |};
       Chat.unreadCount := ∅; Chat.isActive := true; Chat.startedAt := now;
       Chat.lastActivity := now |}.
Proof. split; [|done]. by apply Forall_forall. Qed.

Lemma duplicateKey_iff c chats :
  Chat.duplicateKey c chats ↔
  ∃ d p, d ∈ chats ∧ Chat.itemId d = Chat.itemId c ∧
         p ∈ Chat.participants c ∧ p ∈ Chat.participants d.
Proof.
  unfold Chat.duplicateKey, Chat.indexKeys. rewrite Exists_exists. split.
  - intros (d & Hd & Hk). apply Exists_exists in Hk as (k & Hkc & Hkd).
    apply list_elem_of_fmap in Hkc as (p & -> & Hp).
    apply list_elem_of_fmap in Hkd as (q & Heq & Hq). simplify_eq.
    by exists d, q.
  - intros (d & p & Hd & Hitem & Hpc & Hpd). exists d. split; [done|].
    apply Exists_exists. exists (p, Chat.itemId c). split.
    + apply list_elem_of_fmap. by exists p.
    + apply list_elem_of_fmap. exists p. by rewrite Hitem.
Qed.

(** A later call observes what the first one did. *)
Lemma findOrCreate_again userId1 userId2 item now now' newId newId' chats :
  let first := Chat.findOrCreate userId1 userId2 item now newId chats in
  Chat.findOrCreate userId1 userId2 item now' newId' first.2 = first.
Proof.
  unfold Chat.findOrCreate. cbn zeta.
  destruct (findOne _ chats) as [chat|] eqn:Hfound; cbn [fst snd].
  - by rewrite Hfound.
  - destruct (decide (Chat.duplicateKey _ chats)) as [Hdup|Hfree];
      cbn [fst snd].
    + rewrite Hfound. apply duplicateKey_iff in Hdup.
      rewrite decide_True; [done|]. by apply duplicateKey_iff.
    + unfold insertDoc. rewrite findOne_app, Hfound.
      by rewrite decide_True by apply concerns_own.
Qed.

(** X27: [findOrCreate] does not depend on the order of the two users, and a
    later call, in either order, has the outcome of the first and writes
    nothing. The first call returns the stored chat that holds both users
    for the item when there is one; otherwise it is refused when a stored
    chat about the item holds one of the two users, and appends a new chat,
    with the participants sorted, when none does. *)
Theorem findOrCreate_same_chat userA userB item now now' newId newId' chats :
  let first := Chat.findOrCreate userA userB item now newId chats in
  Chat.findOrCreate userB userA item now newId chats = first ∧
  Chat.findOrCreate userA userB item now' newId' first.2 = first ∧
  Chat.findOrCreate userB userA item now' newId' first.2 = first ∧
  ((∃ chat, chat ∈ chats ∧ Chat.concerns [userA; userB] item chat ∧
            first = (Some chat, chats)) ∨
   (Forall (λ chat, ¬ Chat.concerns [userA; userB] item chat) chats ∧
    (((∃ d, d ∈ chats ∧ Chat.itemId d = item ∧
            (userA ∈ Chat.participants d ∨ userB ∈ Chat.participants d)) ∧
      first = (None, chats))
     ∨
     ((∀ d, d ∈ chats → Chat.itemId d = item →
            (userA ∉ Chat.participants d) ∧ (userB ∉ Chat.participants d)) ∧
      (∃ chat, first = (Some chat, chats ++ [chat]) ∧ Chat._id chat = newId ∧
               Chat.participants chat = Chat.sortIds [userA; userB] ∧
               Chat.itemId chat = item))))).
Proof.
  cbn zeta.
  assert (∀ n i, Chat.findOrCreate userB userA item n i =
                 Chat.findOrCreate userA userB item n i) as Hswap.
  { intros n i. unfold Chat.findOrCreate.
    by rewrite (sortIds_Permutation [userB; userA] [userA; userB])
      by apply Permutation_swap. }
  rewrite !Hswap. split; [done|].
  split; [apply findOrCreate_again|]. split; [apply findOrCreate_again|].
  assert (∀ chat, Chat.concerns (Chat.sortIds [userA; userB]) item chat ↔
                  Chat.concerns [userA; userB] item chat) as Hsame.
  { intros chat. unfold Chat.concerns, Chat.sortIds.
    by rewrite merge_sort_Permutation. }
  assert (∀ p, p ∈ Chat.sortIds [userA; userB] ↔ p = userA ∨ p = userB)
    as Hps.
  { intros p. unfold Chat.sortIds. rewrite merge_sort_Permutation.
    rewrite elem_of_cons, list_elem_of_singleton. done. }
  unfold Chat.findOrCreate. cbn zeta.
  destruct (findOne _ chats) as [chat|] eqn:Hfound; cbn [fst snd].
  - left. apply findOne_Some in Hfound as [Hc Hin].
    exists chat. by rewrite <- Hsame.
  - right. apply findOne_None in Hfound. split.
    { eapply Forall_impl; [exact Hfound|]. intros chat Hn. by rewrite <- Hsame. }
    destruct (decide (Chat.duplicateKey _ chats)) as [Hdup|Hfree].
    + left. split; [|done].
      apply duplicateKey_iff in Hdup as (d & p & Hd & Hitem & Hp & Hpd).
      cbn [Chat.participants Chat.itemId] in Hitem, Hp.
      exists d. split; [done|]. split; [done|].
      apply Hps in Hp as [->| ->]; [by left|by right].
    + right. split.
      * intros d Hd Hitem. split; intros Hp; apply Hfree, duplicateKey_iff;
          exists d; [exists userA|exists userB];
          cbn [Chat.participants Chat.itemId]; rewrite Hps; auto.
      * by eexists.
Qed.

Example findOrCreate_sample :
  let first := Chat.findOrCreate "b2" "a1" "i2" 7 "c2" (chats Samples.db0) in
  let again := Chat.findOrCreate "a1" "b2" "i2" 8 "c3" first.2 in
  Chat.participants <$> first.1 = Some ["a1"; "b2"] ∧
  Chat._id <$> again.1 = Some "c2" ∧ length again.2 = 2%nat.
Proof. vm_compute. done. Qed.

(** C4: the chat of the poster [a1] and the enquirer [b2] about the item [i1]
    is stored, and a second enquirer [cc] asks for a chat with the poster
    about the same item. No stored chat holds both [a1] and [cc], yet
    [findOrCreate] returns no chat and stores none, in either order of the
    users and however often it is called: the new chat's index key
    [(a1, i1)] is a key of the stored chat, so its [save()] is rejected.
    The request to start the chat is answered with 500. *)
Theorem findOrCreate_refuses_second_enquirer :
  let chats0 := chats Samples.db0 in
  let first := Chat.findOrCreate "cc" "a1" "i1" 9 "c2" chats0 in
  Forall (λ chat, ¬ Chat.concerns ["cc"; "a1"] "i1" chat) chats0 ∧
  first = (None, chats0) ∧
  Chat.findOrCreate "a1" "cc" "i1" 10 "c3" first.2 = (None, chats0) ∧
  ChatRoutes.start "cc"
    {| ChatRoutes.itemId := Some "i1"; ChatRoutes.message := Some "Hello" |}
    9 "c2" "m3" Samples.db0 = (serverError, Samples.db0).
Proof.
  cbn zeta. split; [|split; [|split]].
  - apply (bool_decide_unpack _). vm_compute. exact I.
  - vm_compute. reflexivity.
  - vm_compute. reflexivity.
  - vm_compute. reflexivity.
Qed.

(** ** Starting a chat *)

(** C9: a request to start a chat about an item, sent by the poster of that
    item, is answered with 400 and ["Cannot start chat with yourself"], and
    the database, hence the chat collection, is left as it was. *)
Theorem start_own_item userId body now newChatId newMessageId db i item :
  ChatRoutes.itemId body = Some i →
  findById Item._id i (items db) = Some item →
  Item.postedBy item = userId →
  ChatRoutes.start userId body now newChatId newMessageId db =
    (Failed 400 "Cannot start chat with yourself", db).
Proof.
  intros Hbody Hitem Hown. unfold ChatRoutes.start.
  by rewrite Hbody, Hitem, bool_decide_true.
Qed.

Lemma start_own_item_witness :
  ChatRoutes.start "a1"
    {| ChatRoutes.itemId := Some "i1"; ChatRoutes.message := Some "Hello" |}
    9 "c2" "m3" Samples.db0 =
  (Failed 400 "Cannot start chat with yourself", Samples.db0).
Proof.
  apply (start_own_item "a1" _ 9 "c2" "m3" Samples.db0 "i1" Samples.lostPhone);
    reflexivity.
Defined.

(** The chat collection changes, that is [findOrCreate] is reached, only for
    a requester who is not the poster of the item. *)
Lemma start_reaches_findOrCreate userId body now newChatId newMessageId db :
  let out := ChatRoutes.start userId body now newChatId newMessageId db in
  out.2 ≠ db ∨ (∃ chat, out.1 = Sent 200 chat) →
  ∃ i item,
    ChatRoutes.itemId body = Some i ∧
    findById Item._id i (items db) = Some item ∧
    Item.postedBy item ≠ userId ∧
    out = ChatRoutes.startChat userId item i (ChatRoutes.message body) now
            newChatId newMessageId db.
Proof.
  unfold ChatRoutes.start. cbn zeta.
  assert (∀ (code : nat) (text : string) (P : Prop),
            (@Failed (option Chat.t) code text, db).2 ≠ db ∨
            (∃ chat, (@Failed (option Chat.t) code text, db).1 = Sent 200 chat)
            → P) as Hrefused.
  { intros code text P [Hne|[chat Hsent]]; [by destruct Hne|discriminate Hsent]. }
  destruct (ChatRoutes.itemId body) as [i|]; [|apply Hrefused].
  destruct (findById Item._id i (items db)) as [item|] eqn:Hitem;
    [|apply Hrefused].
  case_bool_decide; [apply Hrefused|]. intros _. by exists i, item.
Qed.

Example start_sample :
  let out :=
    ChatRoutes.start "b2"
      {| ChatRoutes.itemId := Some "i1"; ChatRoutes.message := Some "Hello" |}
      9 "c2" "m3" Samples.db0 in
  (Chat._id <$> chats out.2, Message._id <$> messages out.2,
   (λ c, Chat.unreadOf "a1" c) <$> findById Chat._id "c1" (chats out.2))
  = (["c1"], ["m1"; "m2"; "m3"], Some 1).
Proof. vm_compute. reflexivity. Qed.

(** ** Sending a message *)

Lemma getUnreadCount_insert chat user m msgs :
  Message.getUnreadCount chat user (insertDoc m msgs) =
    (Message.getUnreadCount chat user msgs +
     if decide (Message.unreadBy chat user m) then 1 else 0)%nat.
Proof.
  unfold Message.getUnreadCount, insertDoc.
  rewrite filter_app, length_app, filter_cons.
  by destruct (decide (Message.unreadBy chat user m)).
Qed.

Lemma occurrences_absent (B : ObjectId) ps :
  B ∉ ps → length (filter (λ p, p = B) ps) = 0%nat.
Proof.
  induction ps as [|p ps IH]; [done|].
  rewrite not_elem_of_cons, filter_cons. intros [Hp Hps].
  rewrite decide_False by done. auto.
Qed.

Lemma occurrences_NoDup (B : ObjectId) ps :
  NoDup ps → B ∈ ps → length (filter (λ p, p = B) ps) = 1%nat.
Proof.
  induction 1 as [|p ps Hp Hnd IH]; [by intros ?%not_elem_of_nil|].
  rewrite elem_of_cons, filter_cons. intros [->|HB].
  - rewrite decide_True by done. simpl. by rewrite occurrences_absent.
  - rewrite decide_False by (intros ->; done). auto.
Qed.

Lemma unreadOf_increment B p now c :
  Chat.unreadOf B (Chat.incrementUnread p now c []).1 =
    Chat.unreadOf B c + (if decide (p = B) then 1 else 0).
Proof.
  unfold Chat.incrementUnread, Chat.unreadOf. cbn.
  destruct (decide (p = B)) as [->|Hp].
  - by rewrite lookup_insert_eq.
  - rewrite lookup_insert_ne by done. lia.
Qed.

(** The loop of the hook over the participants. *)
Lemma incrementUnread_run from now ps : ∀ c cs,
  let st :=
    foldl (λ st p, if bool_decide (p ≠ from)
                   then Chat.incrementUnread p now st.1 st.2 else st)
          (c, cs) ps in
  (Chat._id st.1 = Chat._id c ∧
   Chat.participants st.1 = Chat.participants c ∧
   Chat.lastMessage st.1 = Chat.lastMessage c) ∧
  (∀ B, Chat.unreadOf B st.1 =
        Chat.unreadOf B c +
        if decide (B = from) then 0
        else Z.of_nat (length (filter (λ p, p = B) ps))) ∧
  (findById Chat._id (Chat._id c) cs = Some c →
   findById Chat._id (Chat._id c) st.2 = Some st.1).
Proof.
  induction ps as [|p ps IH]; intros c cs; cbn zeta.
  - simpl. split; [done|]. split; [|done]. intros B. case_decide; lia.
  - cbn [foldl fst snd]. case_bool_decide as Hp.
    + set (c' := (Chat.incrementUnread p now c cs).1).
      assert (Chat.incrementUnread p now c cs = (c', saveDoc Chat._id c' cs))
        as -> by done.
      destruct (IH c' (saveDoc Chat._id c' cs))
        as ((Hid & Hps & Hlast) & Hcount & Hstored).
      split; [by rewrite Hid, Hps, Hlast|]. split.
      * intros B. rewrite Hcount. subst c'.
        change (Chat.incrementUnread p now c cs).1
          with (Chat.incrementUnread p now c []).1.
        rewrite unreadOf_increment, filter_cons.
        repeat case_decide; subst; simpl length; try done; lia.
      * intros Hc. apply Hstored, findById_saveDoc_eq.
        change (Chat._id c') with (Chat._id c). rewrite Hc. eauto.
    + destruct (IH c cs) as (Hsame & Hcount & Hstored).
      split; [done|]. split; [|done].
      intros B. rewrite Hcount, filter_cons.
      subst p.
      repeat case_decide; subst; simpl length; try done; lia.
Qed.

Lemma preSave_chat m now chat cs :
  findById Chat._id (Message.chatId m) cs = Some chat →
  ∃ chat',
    findById Chat._id (Message.chatId m) (Message.preSave m now cs) = Some chat' ∧
    Chat.participants chat' = Chat.participants chat ∧
    Chat.content (Chat.lastMessage chat') = Some (Message.content m) ∧
    ∀ B, Chat.unreadOf B chat' =
         Chat.unreadOf B chat +
         if decide (B = Message.sender m) then 0
         else Z.of_nat (length (filter (λ p, p = B) (Chat.participants chat))).
Proof.
  intros Hchat. unfold Message.preSave. cbn zeta.
  destruct (findById_Some _ _ _ _ Hchat) as [Hid _].
  rewrite findById_updateById by done.
  rewrite decide_True by done. rewrite Hchat. cbn [fmap option_fmap option_map].
  set (chat1 := Chat.setLastMessage _ _ chat).
  set (cs1 := updateById _ _ _ cs).
  destruct (incrementUnread_run (Message.sender m) now (Chat.participants chat1)
              chat1 cs1) as ((Hid' & Hps & Hlast) & Hcount & Hstored).
  cbn zeta in Hid', Hps, Hlast, Hcount, Hstored.
  change (Chat._id chat1) with (Chat._id chat) in *. rewrite Hid in *.
  eexists. split.
  - apply Hstored. subst cs1. rewrite findById_updateById by done.
    rewrite decide_True by done. by rewrite Hchat.
  - split; [exact Hps|]. split; [by rewrite Hlast|].
    intros B. by rewrite Hcount.
Qed.

(** C2: a participant's message to a chat, once accepted, raises by exactly
    one the number of unread messages of the chat for every other user, hence
    for every other participant, and leaves the sender's number as it was;
    the counter kept in the chat's [unreadCount] map moves the same way: the
    sender's entry is untouched and each other participant's entry grows by
    one. *)
Theorem sendMessage_unread sender chatId body now newId db chat :
  findById Chat._id chatId (chats db) = Some chat →
  sender ∈ Chat.participants chat →
  Message.validate (ChatRoutes.messageOf sender chatId body now newId) = true →
  ∃ m db' chat',
    ChatRoutes.sendMessage sender chatId body now newId db = (Sent 200 m, db') ∧
    Message.getUnreadCount chatId sender (messages db') =
      Message.getUnreadCount chatId sender (messages db) ∧
    (∀ B, B ≠ sender →
       Message.getUnreadCount chatId B (messages db') =
         S (Message.getUnreadCount chatId B (messages db))) ∧
    findById Chat._id chatId (chats db') = Some chat' ∧
    Chat.unreadOf sender chat' = Chat.unreadOf sender chat ∧
    (∀ B, B ≠ sender →
       Chat.unreadOf B chat' =
         Chat.unreadOf B chat +
         Z.of_nat (length (filter (λ p, p = B) (Chat.participants chat)))) ∧
    (NoDup (Chat.participants chat) →
     ∀ B, B ∈ Chat.participants chat → B ≠ sender →
       Chat.unreadOf B chat' = Chat.unreadOf B chat + 1).
Proof.
  intros Hchat Hin Hvalid. unfold ChatRoutes.sendMessage.
  rewrite Hchat, bool_decide_true by done. cbn [negb].
  unfold Message.save. rewrite Hvalid.
  set (m := ChatRoutes.messageOf sender chatId body now newId).
  destruct (preSave_chat m now chat (chats db) Hchat)
    as (chat' & Hchat' & _ & _ & Hcount).
  change (Message.chatId m) with chatId in Hchat'.
  change (Message.sender m) with sender in Hcount.
  exists m, (setMessages (insertDoc m (messages db))
               (setChats (Message.preSave m now (chats db)) db)), chat'.
  split; [done|]. cbn [messages chats setMessages setChats].
  split; [|split; [|split; [exact Hchat'|split; [|split]]]].
  - rewrite getUnreadCount_insert, decide_False; [lia|].
    by intros (_ & Hne & _).
  - intros B HB. rewrite getUnreadCount_insert, decide_True; [lia|].
    split; [done|]. split; [done|]. by intros ?%Exists_nil.
  - rewrite Hcount, decide_True by done. lia.
  - intros B HB. by rewrite Hcount, decide_False.
  - intros Hnd B HBin HB. rewrite Hcount, decide_False by done.
    by rewrite occurrences_NoDup.
Qed.

Lemma sendMessage_unread_witness :
  ∃ m db' chat',
    ChatRoutes.sendMessage "b2" "c1"
      {| ChatRoutes.content := Some "Found near the station";
         ChatRoutes.messageType := None; ChatRoutes.imageUrl := None;
         ChatRoutes.imageCaption := None; ChatRoutes.location := None |}
      3 "m3" Samples.db0 = (Sent 200 m, db') ∧
    Message.getUnreadCount "c1" "b2" (messages db') =
      Message.getUnreadCount "c1" "b2" (messages Samples.db0) ∧
    (∀ B, B ≠ "b2" →
       Message.getUnreadCount "c1" B (messages db') =
         S (Message.getUnreadCount "c1" B (messages Samples.db0))) ∧
    findById Chat._id "c1" (chats db') = Some chat' ∧
    Chat.unreadOf "b2" chat' = Chat.unreadOf "b2" Samples.talk ∧
    (∀ B, B ≠ "b2" →
       Chat.unreadOf B chat' =
         Chat.unreadOf B Samples.talk +
         Z.of_nat (length (filter (λ p, p = B) (Chat.participants Samples.talk)))) ∧
    (NoDup (Chat.participants Samples.talk) →
     ∀ B, B ∈ Chat.participants Samples.talk → B ≠ "b2" →
       Chat.unreadOf B chat' = Chat.unreadOf B Samples.talk + 1).
Proof.
  apply (sendMessage_unread "b2" "c1" _ 3 "m3" Samples.db0 Samples.talk).
  - reflexivity.
  - apply (bool_decide_unpack _). vm_compute. exact I.
  - reflexivity.
Defined.

Example sendMessage_sample :
  let body :=
    {| ChatRoutes.content := Some "Found near the station";
       ChatRoutes.messageType := None; ChatRoutes.imageUrl := None;
       ChatRoutes.imageCaption := None; ChatRoutes.location := None |} in
  let out := ChatRoutes.sendMessage "b2" "c1" body 3 "m3" Samples.db0 in
  (Message.getUnreadCount "c1" "a1" (messages Samples.db0),
   Message.getUnreadCount "c1" "a1" (messages out.2),
   Message.getUnreadCount "c1" "b2" (messages out.2),
   (λ c, (Chat.unreadOf "a1" c, Chat.unreadOf "b2" c))
     <$> findById Chat._id "c1" (chats out.2))
  = (2%nat, 3%nat, 0%nat, Some (1, 0)).
Proof. vm_compute. reflexivity. Qed.

(** ** Marking a chat as read *)

(** The handler of [PUT /:chatId/read] writes to the chat collection only. *)
Lemma markRead_messages userId chatId now db :
  messages (ChatRoutes.markRead userId chatId now db).2 = messages db.
Proof.
  unfold ChatRoutes.markRead.
  destruct (findById Chat._id chatId (chats db)); [|done].
  by destruct (negb _).
Qed.

(** What the handler does reset: the participant's entry of the chat's
    [unreadCount] map. *)
Lemma markRead_counter userId chatId now db chat :
  findById Chat._id chatId (chats db) = Some chat →
  userId ∈ Chat.participants chat →
  ∃ chat',
    ChatRoutes.markRead userId chatId now db =
      (Sent 200 "Chat marked as read",
       setChats (saveDoc Chat._id chat' (chats db)) db) ∧
    findById Chat._id chatId (chats (ChatRoutes.markRead userId chatId now db).2)
      = Some chat' ∧
    Chat.unreadCount chat' !! userId = Some 0.
Proof.
  intros Hchat Hin. unfold ChatRoutes.markRead.
  rewrite Hchat, bool_decide_true by done. cbn [negb].
  destruct (findById_Some _ _ _ _ Hchat) as [Hid _].
  eexists. split; [reflexivity|]. cbn. split.
  - rewrite <- Hid at 1.
    apply (findById_saveDoc_eq Chat._id
             (Chat.setUnreadCount (<[userId:=0]> (Chat.unreadCount chat)) now chat)).
    cbn. rewrite Hid, Hchat. eauto.
  - apply lookup_insert_eq.
Qed.

(** C3 fails on the code: with two messages of the other participant still
    without a receipt, [markRead] answers 200 and zeroes the entry of the map,
    while the count of unread messages stays at two. *)
Theorem markRead_leaves_messages_unread :
  let out := ChatRoutes.markRead "a1" "c1" 5 Samples.db0 in
  out.1 = Sent 200 "Chat marked as read" ∧
  (Chat.unreadOf "a1" <$> findById Chat._id "c1" (chats out.2)) = Some 0 ∧
  Message.getUnreadCount "c1" "a1" (messages Samples.db0) = 2%nat ∧
  Message.getUnreadCount "c1" "a1" (messages out.2) = 2%nat.
Proof. vm_compute. done. Qed.

(** ** Listing the messages of a chat *)

Global Instance newestFirst_total : Total ChatRoutes.newestFirst.
Proof. intros a b. unfold ChatRoutes.newestFirst. lia. Qed.

Global Instance newestFirst_trans : Transitive ChatRoutes.newestFirst.
Proof. intros a b c. unfold ChatRoutes.newestFirst. lia. Qed.

Lemma StronglySorted_drop {A} (R : relation A) n l :
  StronglySorted R l → StronglySorted R (drop n l).
Proof.
  intros Hl. rewrite <- (take_drop n l) in Hl.
  by apply StronglySorted_app in Hl as (_ & _ & Hd).
Qed.

Lemma StronglySorted_reverse {A} (R : relation A) l :
  StronglySorted R l → StronglySorted (flip R) (reverse l).
Proof.
  induction 1 as [|x l Hl IH Hx]; [constructor|].
  rewrite reverse_cons. apply StronglySorted_app_2.
  - intros y z Hy Hz. apply list_elem_of_singleton in Hz. subst z.
    rewrite elem_of_reverse in Hy. rewrite Forall_forall in Hx.
    by apply Hx.
  - exact IH.
  - repeat constructor.
Qed.

Lemma markFor_read chat user now m : ¬ Message.unreadBy chat user (markFor chat user now m).
Proof.
  unfold markFor. case_decide as Hm; [|done].
  intros (_ & _ & Hr). apply Hr. cbn. apply Exists_app. right. by left.
Qed.

Lemma getUnreadCount_marked chat user now msgs :
  Message.getUnreadCount chat user (markFor chat user now <$> msgs) = 0%nat.
Proof.
  unfold Message.getUnreadCount. apply length_zero_iff_nil.
  induction msgs as [|m msgs IH]; [done|].
  rewrite fmap_cons, filter_cons_False; [done|apply markFor_read].
Qed.

(** C5 (as amended): for a participant and a page and page size of at least
    one, the listing answers with the requested page, that is the slice of
    the chat's messages taken newest first, delivered oldest first; it
    appends a receipt of the requester to every message of the chat, on the
    page or not, that somebody else sent and that had no receipt of the
    requester, and to no other message; and it sets the requester's entry of
    the chat's [unreadCount] map to zero. *)
Theorem listMessages_effects requester chatId page limit now db chat :
  findById Chat._id chatId (chats db) = Some chat →
  requester ∈ Chat.participants chat →
  1 ≤ default 1 page →
  1 ≤ default 50 limit →
  ∃ pg db' chat',
    ChatRoutes.listMessages requester chatId page limit now db =
      (Sent 200 pg, db') ∧
    reverse (ChatRoutes.pageMessages pg) =
      take (Z.to_nat (default 50 limit))
        (drop (Z.to_nat ((default 1 page - 1) * default 50 limit))
           (merge_sort ChatRoutes.newestFirst
              (filter (λ m, Message.chatId m = chatId) (messages db)))) ∧
    StronglySorted (λ a b, Message.createdAt a ≤ Message.createdAt b)
      (ChatRoutes.pageMessages pg) ∧
    messages db' = markFor chatId requester now <$> messages db ∧
    Message.getUnreadCount chatId requester (messages db') = 0%nat ∧
    findById Chat._id chatId (chats db') = Some chat' ∧
    Chat.unreadCount chat' !! requester = Some 0.
Proof.
  intros Hchat Hin Hpage Hlimit. unfold ChatRoutes.listMessages. cbn zeta.
  rewrite Hchat, bool_decide_true by done. cbn [negb].
  rewrite bool_decide_false by nia.
  unfold ChatRoutes.queryLimit. rewrite bool_decide_false by lia.
  replace (Z.abs_nat (default 50 limit)) with (Z.to_nat (default 50 limit))
    by lia.
  destruct (findById_Some _ _ _ _ Hchat) as [Hid _].
  eexists _, _, _. split; [reflexivity|].
  cbn [ChatRoutes.pageMessages messages chats setChats setMessages
       Chat.markAsRead snd].
  split; [apply reverse_involutive|]. split; [|split; [done|split]].
  - apply (StronglySorted_reverse ChatRoutes.newestFirst).
    apply StronglySorted_take, StronglySorted_drop.
    apply StronglySorted_merge_sort; apply _.
  - apply getUnreadCount_marked.
  - split.
    + rewrite <- Hid at 1.
      apply (findById_saveDoc_eq Chat._id
               (Chat.setUnreadCount (<[requester:=0]> (Chat.unreadCount chat))
                  now chat)).
      cbn. rewrite Hid, Hchat. eauto.
    + apply lookup_insert_eq.
Qed.

Lemma listMessages_effects_witness :
  ∃ pg db' chat',
    ChatRoutes.listMessages "a1" "c1" (Some 2) (Some 1) 5 Samples.db0 =
      (Sent 200 pg, db') ∧
    reverse (ChatRoutes.pageMessages pg) =
      take (Z.to_nat (default 50 (Some 1)))
        (drop (Z.to_nat ((default 1 (Some 2) - 1) * default 50 (Some 1)))
           (merge_sort ChatRoutes.newestFirst
              (filter (λ m, Message.chatId m = "c1") (messages Samples.db0)))) ∧
    StronglySorted (λ a b, Message.createdAt a ≤ Message.createdAt b)
      (ChatRoutes.pageMessages pg) ∧
    messages db' = markFor "c1" "a1" 5 <$> messages Samples.db0 ∧
    Message.getUnreadCount "c1" "a1" (messages db') = 0%nat ∧
    findById Chat._id "c1" (chats db') = Some chat' ∧
    Chat.unreadCount chat' !! "a1" = Some 0.
Proof.
  apply (listMessages_effects "a1" "c1" (Some 2) (Some 1) 5 Samples.db0
           Samples.talk).
  - reflexivity.
  - apply (bool_decide_unpack _). vm_compute. exact I.
  - simpl. lia.
  - simpl. lia.
Defined.

(** C5 (as stated) fails: with a page size of one, the first page holds the
    newest message only, yet the older message, which is not on the page,
    receives the requester's receipt as well. *)
Lemma listMessages_marks_beyond_page :
  let out := ChatRoutes.listMessages "a1" "c1" (Some 1) (Some 1) 5 Samples.db0 in
  (∃ code pg, out.1 = Sent code pg ∧
     Message._id <$> ChatRoutes.pageMessages pg = ["m2"]) ∧
  (Message.isReadBy "a1" <$> findById Message._id "m1" (messages Samples.db0))
    = Some false ∧
  (Message.isReadBy "a1" <$> findById Message._id "m1" (messages out.2))
    = Some true.
Proof. vm_compute. split; [|done]. by eexists _, _. Qed.

(** * Further properties of the models and routes *)

(** ** Nearby items *)

(** X1: [findNearby] returns exactly the stored items that are active and
    whose distance, as the index measures it, is within the radius, each as
    often as it is stored and in ascending order of that distance; without a
    radius the limit is 10000 metres. The distance is measured from the
    point whose longitude and latitude are the [lng] and [lat] of the given
    coordinates to the point whose longitude and latitude are the [lat] and
    [lng] of the item's stored pair, in that order. *)
Theorem findNearby_exact `{Platform} origin maxDistance items :
  let radius := default 10000%Q maxDistance in
  let found := Item.findNearby origin maxDistance items in
  StronglySorted (Item.nearer origin) found ∧
  found ≡ₚ filter (λ i, (Item.distanceFrom origin i <= radius)%Q
                         ∧ Item.status i = "active") items ∧
  (∀ i, i ∈ found ↔
        i ∈ items ∧ Item.status i = "active" ∧
        (Item.distanceFrom origin i <= radius)%Q) ∧
  (∀ i, Item.distanceFrom origin i =
        geoDistance
          {| longitude := lng origin; latitude := lat origin |}
          {| longitude := lat (coordinates (Item.location i));
             latitude := lng (coordinates (Item.location i)) |}).
Proof.
  cbn zeta. unfold Item.findNearby. split; [apply near_sorted|].
  split; [|split; [|done]].
  - unfold Item.near. rewrite merge_sort_Permutation.
    rewrite <- list_filter_filter. apply reflexive_eq.
    apply list_filter_iff. intros i.
    by rewrite Is_true_true, Qle_bool_iff.
  - intros i. rewrite near_elem, list_elem_of_filter. tauto.
Qed.

(** X2: every potential match of an item is one of the nearby items of its
    coordinates, for any radius of at least 50000 metres. *)
Theorem findPotentialMatches_nearby `{Platform} self ty cat origin radius items i :
  (50000 <= radius)%Q →
  i ∈ Item.findPotentialMatches self ty cat origin items →
  i ∈ Item.findNearby origin (Some radius) items.
Proof.
  intros Hr Hi. unfold Item.findPotentialMatches in Hi.
  apply subseteq_take in Hi. apply near_elem in Hi as [Hd Hi].
  apply list_elem_of_filter in Hi as [(_ & _ & _ & Hst) Hi].
  unfold Item.findNearby. apply near_elem. split.
  - simpl. exact (Qle_trans _ _ _ Hd Hr).
  - by apply list_elem_of_filter.
Qed.

Lemma findPotentialMatches_nearby_witness :
  Samples.foundPhone ∈
    Item.findNearby (coordinates Samples.square) (Some 60000%Q)
      (items Samples.db0).
Proof.
  apply (findPotentialMatches_nearby "i1" "lost" "Electronics"
           (coordinates Samples.square) 60000%Q (items Samples.db0)
           Samples.foundPhone).
  - apply (bool_decide_unpack _). vm_compute. exact I.
  - assert (Item.findPotentialMatches "i1" "lost" "Electronics"
              (coordinates Samples.square) (items Samples.db0)
            = [Samples.foundPhone]) as -> by (vm_compute; reflexivity).
    left.
Defined.



(** ** Expiry *)

(** X3: an item built by the posting handler at clock reading [now] is
    reported expired exactly at the readings later than [now] plus thirty
    days; in particular it is not expired when it is posted. *)
Theorem build_isExpired `{Platform} userId body files now newId item later :
  ItemRoutes.build userId body files now newId = Some item →
  Item.isExpired later item = bool_decide (later > now + 2592000000) ∧
  Item.isExpired now item = false.
Proof.
  intros Hbuild. unfold ItemRoutes.build in Hbuild.
  repeat match type of Hbuild with
         | mbind _ ?m = Some _ => destruct m; simpl in Hbuild; [|done]
         end.
  injection Hbuild as <-. unfold Item.isExpired, Item.defaultExpiresAt. cbn.
  split; [done|]. apply bool_decide_false. lia.
Qed.

Lemma build_isExpired_witness :
  Item.isExpired 2592001001 Samples.posted
    = bool_decide (2592001001 > 1000 + 2592000000) ∧
  Item.isExpired 1000 Samples.posted = false.
Proof.
  apply (build_isExpired "a1" Samples.form ["photo.jpg"] 1000 "i9"
           Samples.posted 2592001001).
  reflexivity.
Defined.

(** ** Badges by name *)

Lemma find_badge_None badgeName bs :
  badgeName ∉ User.name <$> bs →
  find (λ badge, bool_decide (User.name badge = badgeName)) bs = None.
Proof.
  induction bs as [|b bs IH]; [done|].
  rewrite fmap_cons, not_elem_of_cons. intros [Hb Hbs]. simpl.
  rewrite bool_decide_false by congruence. auto.
Qed.

Lemma find_badge_Some badgeName bs :
  badgeName ∈ User.name <$> bs →
  is_Some (find (λ badge, bool_decide (User.name badge = badgeName)) bs).
Proof.
  induction bs as [|b bs IH]; [by intros ?%not_elem_of_nil|].
  rewrite fmap_cons, elem_of_cons. simpl. intros Hin.
  case_bool_decide as Hb; [eauto|]. destruct Hin as [->|Hin]; [done|auto].
Qed.

Lemma addBadge_present badgeName text now u users :
  badgeName ∈ User.name <$> User.badges u →
  User.addBadge badgeName text now u users = (u, users).
Proof.
  intros Hin. unfold User.addBadge.
  by destruct (find_badge_Some _ _ Hin) as [b ->].
Qed.

(** X4: [addBadge] keeps badge names unique: on a user whose badges have
    pairwise different names the result has pairwise different names and
    holds the given name; a second call with the same name, whatever its
    description, changes neither the document nor the collection. *)
Theorem addBadge_unique badgeName text text' now now' u users :
  NoDup (User.name <$> User.badges u) →
  let first := User.addBadge badgeName text now u users in
  NoDup (User.name <$> User.badges first.1) ∧
  badgeName ∈ User.name <$> User.badges first.1 ∧
  User.addBadge badgeName text' now' first.1 first.2 = first.
Proof.
  intros Hnd. cbn zeta.
  destruct (decide (badgeName ∈ User.name <$> User.badges u)) as [Hin|Hin].
  - rewrite (addBadge_present _ text now u users Hin). cbn [fst snd].
    split; [done|]. split; [done|]. by apply addBadge_present.
  - assert (User.addBadge badgeName text now u users =
            (User.setBadges
               (User.badges u ++
                [{| User.name := badgeName; User.description := text;
                    User.earnedAt := now |}]) u,
             saveDoc User._id
               (User.setBadges
                  (User.badges u ++
                   [{| User.name := badgeName; User.description := text;
                       User.earnedAt := now |}]) u) users)) as ->.
    { unfold User.addBadge. by rewrite (find_badge_None _ _ Hin). }
    cbn [fst snd User.badges User.setBadges].
    assert (badgeName ∈ User.name <$>
              User.badges u ++
              [{| User.name := badgeName; User.description := text;
                  User.earnedAt := now |}]) as Hnow.
    { rewrite fmap_app. apply elem_of_app. right. by left. }
    split; [|split; [exact Hnow|by apply addBadge_present]].
    rewrite fmap_app. apply NoDup_app. split; [done|].
    split; [|apply NoDup_singleton].
    intros x Hx Hx'. apply list_elem_of_singleton in Hx'. by subst x.
Qed.

Lemma addBadge_unique_witness :
  let first :=
    User.addBadge "Helper" "Helped a neighbour" 5 Samples.alice
      [Samples.alice] in
  NoDup (User.name <$> User.badges first.1) ∧
  "Helper" ∈ User.name <$> User.badges first.1 ∧
  User.addBadge "Helper" "Again" 6 first.1 first.2 = first.
Proof.
  apply (addBadge_unique "Helper" "Helped a neighbour" "Again" 5 6
           Samples.alice [Samples.alice]).
  apply (bool_decide_unpack _). vm_compute. exact I.
Defined.

(** ** More on collections *)

Section WriteFacts.
Context {A : Type} (key : A → ObjectId).

Lemma elem_of_updateOne (P : A → Prop) `{∀ d, Decision (P d)} f c x :
  x ∈ updateOne P f c → x ∈ c ∨ ∃ y, y ∈ c ∧ P y ∧ x = f y.
Proof.
  induction c as [|d c IH]; [by intros ?%not_elem_of_nil|].
  cbn [updateOne]. destruct (decide (P d)) as [Hd|Hd].
  - rewrite !elem_of_cons. intros [->|Hx]; [|by left; right].
    right. exists d. by rewrite elem_of_cons; auto.
  - rewrite !elem_of_cons. intros [->|Hx]; [by left; left|].
    destruct (IH Hx) as [?|(y & ? & ? & ?)]; [by left; right|].
    right. exists y. by rewrite elem_of_cons; auto.
Qed.

Lemma Forall_updateOne (Q P : A → Prop) `{∀ d, Decision (P d)} f c :
  Forall Q c → (∀ y, y ∈ c → P y → Q (f y)) → Forall Q (updateOne P f c).
Proof.
  rewrite !Forall_forall. intros Hc Hf x Hx.
  destruct (elem_of_updateOne _ _ _ _ Hx) as [?|(y & ? & ? & ->)]; auto.
Qed.

Lemma Forall_saveDoc (Q : A → Prop) d c :
  Forall Q c → Q d → Forall Q (saveDoc key d c).
Proof. intros Hc Hd. apply Forall_updateOne; auto. Qed.

Lemma fmap_key_updateById f i c :
  (∀ d, key d = i → key (f d) = i) →
  key <$> updateById key f i c = key <$> c.
Proof.
  intros Hf. apply fmap_updateOne. intros x Hx.
  apply findOne_Some in Hx as [Hx _]. by rewrite Hf.
Qed.

Lemma fmap_key_saveDoc d c : key <$> saveDoc key d c = key <$> c.
Proof. by apply fmap_key_updateById. Qed.

(** With unique identifiers, the stored documents of a given identifier
    after a write are the written document only. *)
Lemma elem_of_saveDoc_key d c x :
  NoDup (key <$> c) → x ∈ saveDoc key d c → key x = key d → x = d.
Proof.
  unfold saveDoc, updateById. induction c as [|y c IH]; intros Hnd.
  { by intros ?%not_elem_of_nil. }
  rewrite fmap_cons in Hnd. apply NoDup_cons in Hnd as [Hy Hnd].
  cbn [updateOne]. destruct (decide (key y = key d)) as [Hyd|Hyd].
  - rewrite elem_of_cons. intros [->|Hx] Hk; [done|].
    destruct Hy. rewrite Hyd, <- Hk. by apply list_elem_of_fmap_2.
  - rewrite elem_of_cons. intros [->|Hx] Hk; [done|]. by apply IH.
Qed.

Lemma saveDoc_same d c : findById key (key d) c = Some d → saveDoc key d c = c.
Proof.
  unfold saveDoc, updateById, findById, findOne.
  induction c as [|y c IH]; [done|].
  rewrite filter_cons. cbn [updateOne].
  destruct (decide (key y = key d)); simpl; [by intros [= ->]|].
  intros Hc. by rewrite IH.
Qed.

Lemma saveDoc_saveDoc d d' c :
  key d = key d' → saveDoc key d (saveDoc key d' c) = saveDoc key d c.
Proof.
  intros Hk. unfold saveDoc, updateById. rewrite <- Hk.
  induction c as [|y c IH]; [done|].
  cbn [updateOne]. destruct (decide (key y = key d)) as [Hy|Hy].
  - cbn [updateOne]. by rewrite decide_True by congruence.
  - cbn [updateOne]. rewrite decide_False by done. by rewrite IH.
Qed.

Lemma filter_all (P : A → Prop) `{∀ d, Decision (P d)} c :
  Forall P c → filter P c = c.
Proof.
  induction 1 as [|x c Hx Hc IH]; [done|].
  by rewrite filter_cons_True, IH.
Qed.

Lemma deleteById_filter i c :
  NoDup (key <$> c) → deleteById key i c = filter (λ x, key x ≠ i) c.
Proof.
  induction c as [|y c IH]; [done|]. rewrite fmap_cons. intros Hnd.
  apply NoDup_cons in Hnd as [Hy Hnd]. cbn [deleteById]. rewrite filter_cons.
  destruct (decide (key y = i)) as [Hyi|Hyi].
  - rewrite decide_False by (by intros ?). symmetry.
    apply filter_all. apply Forall_forall. intros x Hx Hk.
    apply Hy. rewrite Hyi, <- Hk. by apply list_elem_of_fmap_2.
  - rewrite decide_True by done. by rewrite IH.
Qed.

Lemma elem_of_deleteById i c d x :
  findById key i c = Some d → x ∈ c → x ≠ d → x ∈ deleteById key i c.
Proof.
  unfold findById, findOne. induction c as [|y c IH]; [done|].
  rewrite filter_cons. cbn [deleteById].
  destruct (decide (key y = i)); simpl.
  - intros [= ->]. rewrite elem_of_cons. by intros [->|?].
  - intros Hd. rewrite !elem_of_cons. intros [->|Hx] Hne; auto.
Qed.
End WriteFacts.

(** ** Viewing an item *)

Lemma setViews_same i : Item.setViews (Item.views i) i = i.
Proof. by destruct i. Qed.

Lemma setItems_same db : setItems (items db) db = db.
Proof. by destruct db. Qed.

(** X5: the view counter counts every fetch: after [n] fetches of a stored
    item the database differs from the original one in the [views] of that
    item only, which have grown by [n], and the next fetch answers with the
    item at [n + 1] more views. *)
Theorem getItem_counts id db item n :
  findById Item._id id (items db) = Some item →
  let after := fetched n id db in
  after =
    setItems
      (saveDoc Item._id (Item.setViews (Item.views item + Z.of_nat n) item)
         (items db)) db ∧
  findById Item._id id (items after) =
    Some (Item.setViews (Item.views item + Z.of_nat n) item) ∧
  (ItemRoutes.getItem id after).1 =
    Sent 200 (Item.setViews (Item.views item + Z.of_nat n + 1) item).
Proof.
  intros Hitem. cbn zeta.
  destruct (findById_Some _ _ _ _ Hitem) as [Hid _].
  assert (∀ k, findById Item._id id
                 (saveDoc Item._id (Item.setViews k item) (items db)) =
               Some (Item.setViews k item)) as Hstored.
  { intros k. rewrite <- Hid at 1.
    apply (findById_saveDoc_eq Item._id (Item.setViews k item)).
    cbn. rewrite Hid, Hitem. eauto. }
  induction n as [|n IH].
  - cbn [fetched]. rewrite Z.add_0_r, setViews_same.
    rewrite saveDoc_same by (by rewrite Hid). rewrite setItems_same.
    split; [done|]. split; [done|].
    unfold ItemRoutes.getItem. by rewrite Hitem.
  - destruct IH as (IH & IHfound & _). cbn [fetched]. rewrite IH.
    assert (ItemRoutes.getItem id
              (setItems
                 (saveDoc Item._id
                    (Item.setViews (Item.views item + Z.of_nat n) item)
                    (items db)) db) =
            (Sent 200 (Item.setViews (Item.views item + Z.of_nat (S n)) item),
             setItems
               (saveDoc Item._id
                  (Item.setViews (Item.views item + Z.of_nat (S n)) item)
                  (items db)) db)) as Hfetch.
    { unfold ItemRoutes.getItem. cbn [items setItems]. rewrite Hstored.
      cbn [Item.views Item.setViews].
      replace (Item.views item + Z.of_nat n + 1)
        with (Item.views item + Z.of_nat (S n)) by lia.
      by rewrite saveDoc_saveDoc. }
    rewrite Hfetch. cbn [snd items setItems]. split; [done|].
    split; [apply Hstored|].
    unfold ItemRoutes.getItem. cbn [items setItems]. by rewrite Hstored.
Qed.

Lemma getItem_counts_witness :
  let after := fetched 3 "i1" Samples.db0 in
  after =
    setItems
      (saveDoc Item._id
         (Item.setViews (Item.views Samples.lostPhone + Z.of_nat 3)
            Samples.lostPhone)
         (items Samples.db0)) Samples.db0 ∧
  findById Item._id "i1" (items after) =
    Some (Item.setViews (Item.views Samples.lostPhone + Z.of_nat 3)
            Samples.lostPhone) ∧
  (ItemRoutes.getItem "i1" after).1 =
    Sent 200 (Item.setViews (Item.views Samples.lostPhone + Z.of_nat 3 + 1)
                Samples.lostPhone).
Proof.
  apply (getItem_counts "i1" Samples.db0 Samples.lostPhone 3). reflexivity.
Defined.

(** ** Deleting an item *)

(** X6: when the poster deletes an item and the image host accepts the
    removal of its images, the answer is 200, no stored item carries the
    identifier any more, every other item is kept in its place, and the
    users, chats and messages are not touched. *)
Theorem deleteItem_owner destroy userId id db item :
  NoDup (Item._id <$> items db) →
  findById Item._id id (items db) = Some item →
  Item.postedBy item = userId →
  Forall (λ image, publicId image = "" ∨ destroy (publicId image) = true)
         (Item.images item) →
  let out := ItemRoutes.deleteItem destroy userId id db in
  out.1 = Sent 200 "Item deleted successfully" ∧
  findById Item._id id (items out.2) = None ∧
  items out.2 = filter (λ x, Item._id x ≠ id) (items db) ∧
  users out.2 = users db ∧ chats out.2 = chats db ∧
  messages out.2 = messages db.
Proof.
  intros Hnd Hitem Hown Himages. unfold ItemRoutes.deleteItem. cbn zeta.
  rewrite Hitem, bool_decide_false by (by intros ?).
  assert (forallb (λ image, bool_decide (publicId image = "")
                            || destroy (publicId image))
                  (Item.images item) = true) as ->.
  { apply forallb_forall. intros image Himage.
    apply list_elem_of_In in Himage.
    rewrite Forall_forall in Himages.
    destruct (Himages image Himage) as [->| ->]; [done|].
    apply orb_true_r. }
  cbn. rewrite deleteById_filter by done. repeat split; try done.
  apply findOne_None, Forall_forall. intros x Hx.
  by apply list_elem_of_filter in Hx as [Hx _].
Qed.

Lemma deleteItem_owner_witness :
  let out := ItemRoutes.deleteItem (λ _, true) "a1" "i1" Samples.db0 in
  out.1 = Sent 200 "Item deleted successfully" ∧
  findById Item._id "i1" (items out.2) = None ∧
  items out.2 = filter (λ x, Item._id x ≠ "i1") (items Samples.db0) ∧
  users out.2 = users Samples.db0 ∧ chats out.2 = chats Samples.db0 ∧
  messages out.2 = messages Samples.db0.
Proof.
  apply (deleteItem_owner (λ _, true) "a1" "i1" Samples.db0 Samples.lostPhone).
  - apply (bool_decide_unpack _). vm_compute. exact I.
  - reflexivity.
  - reflexivity.
  - constructor.
Defined.

(** X7: nobody deletes somebody else's item: whatever the request, every
    stored item that is posted by another user, or that carries another
    identifier than the requested one, is still stored afterwards, and the
    users, chats and messages are not touched. *)
Theorem deleteItem_spares_others destroy userId id db x :
  x ∈ items db →
  Item.postedBy x ≠ userId ∨ Item._id x ≠ id →
  let out := ItemRoutes.deleteItem destroy userId id db in
  x ∈ items out.2 ∧ users out.2 = users db ∧ chats out.2 = chats db ∧
  messages out.2 = messages db.
Proof.
  intros Hx Hother. unfold ItemRoutes.deleteItem. cbn zeta.
  destruct (findById Item._id id (items db)) as [item|] eqn:Hitem; [|done].
  case_bool_decide as Hown; [done|].
  destruct (forallb _ _); [|done]. cbn. split; [|done].
  apply (elem_of_deleteById Item._id id (items db) item); [done..|].
  intros ->. destruct (findById_Some _ _ _ _ Hitem) as [Hid _].
  by destruct Hother.
Qed.

Lemma deleteItem_spares_others_witness :
  let out := ItemRoutes.deleteItem (λ _, true) "b2" "i1" Samples.db0 in
  Samples.lostPhone ∈ items out.2 ∧ users out.2 = users Samples.db0 ∧
  chats out.2 = chats Samples.db0 ∧ messages out.2 = messages Samples.db0.
Proof.
  apply (deleteItem_spares_others (λ _, true) "b2" "i1" Samples.db0
           Samples.lostPhone).
  - left.
  - left. discriminate.
Defined.

(** ** Resolved items and the match finder *)

(** X8: once its poster has resolved an item, the match finder offers it for
    no item any more, and it is no nearby item either. *)
Theorem resolve_unmatched `{Platform} userId id now db item :
  NoDup (Item._id <$> items db) →
  findById Item._id id (items db) = Some item →
  Item.postedBy item = userId →
  let after := (ItemRoutes.resolve userId id now db).2 in
  (∀ self ty cat origin x,
     x ∈ Item.findPotentialMatches self ty cat origin (items after) →
     Item._id x ≠ id) ∧
  (∀ origin radius x,
     x ∈ Item.findNearby origin radius (items after) → Item._id x ≠ id).
Proof.
  intros Hnd Hitem Hown. cbn zeta.
  destruct (findById_Some _ _ _ _ Hitem) as [Hid _].
  assert (∀ x, x ∈ items (ItemRoutes.resolve userId id now db).2 →
               Item._id x = id → Item.status x = "resolved") as Hres.
  { unfold ItemRoutes.resolve.
    rewrite Hitem, bool_decide_false by (by intros ?). cbn zeta.
    assert (∀ x, x ∈ saveDoc Item._id (Item.setResolved userId now item)
                       (items db) →
                 Item._id x = id → Item.status x = "resolved") as Hsaved.
    { intros x Hx Hk.
      by rewrite (elem_of_saveDoc_key Item._id _ _ x Hnd Hx) by
        (cbn; congruence). }
    cbn [Item.markAsResolved fst snd items setItems].
    by destruct (findById User._id userId _). }
  split.
  - intros self ty cat origin x Hx Hk.
    unfold Item.findPotentialMatches in Hx. apply subseteq_take in Hx.
    apply near_elem in Hx as [_ Hx].
    apply list_elem_of_filter in Hx as [(_ & _ & _ & Hst) Hx].
    rewrite (Hres x Hx Hk) in Hst. discriminate.
  - intros origin radius x Hx Hk. unfold Item.findNearby in Hx.
    apply near_elem in Hx as [_ Hx].
    apply list_elem_of_filter in Hx as [Hst Hx].
    rewrite (Hres x Hx Hk) in Hst. discriminate.
Qed.

Lemma resolve_unmatched_witness :
  let after := (ItemRoutes.resolve "b2" "i2" 10 Samples.db0).2 in
  (∀ self ty cat origin x,
     x ∈ Item.findPotentialMatches self ty cat origin (items after) →
     Item._id x ≠ "i2") ∧
  (∀ origin radius x,
     x ∈ Item.findNearby origin radius (items after) → Item._id x ≠ "i2").
Proof.
  apply (resolve_unmatched "b2" "i2" 10 Samples.db0 Samples.foundPhone).
  - apply (bool_decide_unpack _). vm_compute. exact I.
  - reflexivity.
  - reflexivity.
Defined.

(** ** Match alerts *)

Lemma addPotentialMatch_cases matchId conf now i c :
  (matchId ∈ Item.itemId <$> Item.potentialMatches i ∧
   Item.addPotentialMatch matchId conf now i c = (i, c)) ∨
  ((matchId ∉ Item.itemId <$> Item.potentialMatches i) ∧
   (let i' :=
      Item.setPotentialMatches
        (Item.potentialMatches i ++
         [{| Item.itemId := matchId; Item.confidence := conf;
             Item.matchedAt := now |}]) i in
    Item.addPotentialMatch matchId conf now i c
      = (i', saveDoc Item._id i' c))).
Proof.
  unfold Item.addPotentialMatch.
  destruct (find _ _) as [m|] eqn:Hfind.
  - left. split; [|done].
    apply find_some in Hfind as [Hin Hm]. apply bool_decide_eq_true in Hm.
    rewrite <- Hm. apply list_elem_of_fmap_2. by apply list_elem_of_In.
  - right. split; [|done].
    intros Hin. apply list_elem_of_fmap in Hin as (m & -> & Hm).
    apply list_elem_of_In in Hm.
    eapply find_none in Hfind; [|exact Hm]. by case_bool_decide.
Qed.

(** What [addPotentialMatch] leaves behind: the document lists the match,
    keeps its earlier entries, identifier and poster, and is the stored copy;
    the other stored items are as before. *)
Lemma addPotentialMatch_stored matchId conf now i c :
  findById Item._id (Item._id i) c = Some i →
  let out := Item.addPotentialMatch matchId conf now i c in
  Item._id out.1 = Item._id i ∧ Item.postedBy out.1 = Item.postedBy i ∧
  matchId ∈ Item.itemId <$> Item.potentialMatches out.1 ∧
  (∀ j, j ∈ Item.itemId <$> Item.potentialMatches i →
        j ∈ Item.itemId <$> Item.potentialMatches out.1) ∧
  (∀ j, findById Item._id j out.2 =
        if decide (j = Item._id i) then Some out.1
        else findById Item._id j c).
Proof.
  intros Hi. cbn zeta.
  destruct (addPotentialMatch_cases matchId conf now i c)
    as [[Hin ->]|[Hin ->]]; cbn [fst snd].
  - repeat split; try done. intros j. by case_decide; subst.
  - cbn [Item._id Item.postedBy Item.potentialMatches Item.setPotentialMatches].
    repeat split; try done.
    + rewrite fmap_app. apply elem_of_app. right. by left.
    + intros j Hj. rewrite fmap_app. apply elem_of_app. by left.
    + intros j. rewrite findById_saveDoc. cbn [Item._id Item.setPotentialMatches].
      case_decide; subst; [by rewrite Hi|done].
Qed.

(** The course of an accepted match alert. *)
Lemma matchAlert_run userId body now db a b item matched :
  NotificationRoutes.itemId body = Some a →
  NotificationRoutes.matchedItemId body = Some b →
  a ≠ b →
  findById Item._id a (items db) = Some item →
  findById Item._id b (items db) = Some matched →
  Item.postedBy item = userId ∨ Item.postedBy matched = userId →
  is_Some (findById User._id (Item.postedBy item) (users db)) →
  is_Some (findById User._id (Item.postedBy matched) (users db)) →
  ∃ item' matched' items',
    NotificationRoutes.matchAlert userId body now db =
      (Sent 200 {| NotificationRoutes.alertItem := a;
                   NotificationRoutes.alertMatch := b;
                   NotificationRoutes.alertConfidence :=
                     NotificationRoutes.confidence body |},
       setItems items' db) ∧
    findById Item._id a items' = Some item' ∧
    findById Item._id b items' = Some matched' ∧
    Item.postedBy item' = Item.postedBy item ∧
    Item.postedBy matched' = Item.postedBy matched ∧
    b ∈ Item.itemId <$> Item.potentialMatches item' ∧
    a ∈ Item.itemId <$> Item.potentialMatches matched' ∧
    (∀ j, j ∈ Item.itemId <$> Item.potentialMatches item →
          j ∈ Item.itemId <$> Item.potentialMatches item') ∧
    (∀ j, j ∈ Item.itemId <$> Item.potentialMatches matched →
          j ∈ Item.itemId <$> Item.potentialMatches matched').
Proof.
  intros Ha Hb Hab Hitem Hmatched Hauth [owner Howner] [owner' Howner'].
  destruct (findById_Some _ _ _ _ Hitem) as [Hida _].
  destruct (findById_Some _ _ _ _ Hmatched) as [Hidb _].
  unfold NotificationRoutes.matchAlert.
  rewrite Ha, Hb. cbn [mbind option_bind]. rewrite Hitem, Hmatched.
  assert (bool_decide (Item.postedBy item ≠ userId)
          && bool_decide (Item.postedBy matched ≠ userId) = false) as ->.
  { destruct Hauth as [<-|<-].
    - by rewrite (bool_decide_false (_ ≠ _)) by (by intros ?).
    - rewrite (bool_decide_false (Item.postedBy matched ≠ _)) by (by intros ?).
      apply andb_false_r. }
  cbn zeta. cbn [users setItems]. rewrite Howner, Howner'.
  rewrite <- Hida in Hitem. rewrite <- Hidb in Hmatched.
  destruct (addPotentialMatch_stored (Item._id matched)
              (NotificationRoutes.confidence body) now item (items db) Hitem)
    as (Hid1 & Hown1 & Hin1 & Hkeep1 & Hlook1).
  cbn zeta in Hid1, Hown1, Hin1, Hkeep1, Hlook1.
  set (first := Item.addPotentialMatch (Item._id matched) _ now item (items db))
    in *.
  assert (findById Item._id (Item._id matched) first.2 = Some matched) as Hm1.
  { rewrite Hlook1, decide_False by congruence. done. }
  destruct (addPotentialMatch_stored (Item._id item)
              (NotificationRoutes.confidence body) now matched first.2 Hm1)
    as (Hid2 & Hown2 & Hin2 & Hkeep2 & Hlook2).
  cbn zeta in Hid2, Hown2, Hin2, Hkeep2, Hlook2.
  set (second := Item.addPotentialMatch (Item._id item) _ now matched first.2)
    in *.
  exists first.1, second.1, second.2. rewrite Hida, Hidb in *.
  split; [done|]. split.
  { rewrite Hlook2, decide_False by done. by rewrite Hlook1, decide_True. }
  split; [by rewrite Hlook2, decide_True|].
  repeat split; done.
Qed.

(** X9: a match alert about two different stored items, sent by the poster
    of one of them while both posters exist, is answered with 200; afterwards
    each of the two stored items lists the other among its
    [potentialMatches], keeps the entries it had, and users, chats and
    messages are not touched. *)
Theorem matchAlert_links userId body now db a b item matched :
  NotificationRoutes.itemId body = Some a →
  NotificationRoutes.matchedItemId body = Some b →
  a ≠ b →
  findById Item._id a (items db) = Some item →
  findById Item._id b (items db) = Some matched →
  Item.postedBy item = userId ∨ Item.postedBy matched = userId →
  is_Some (findById User._id (Item.postedBy item) (users db)) →
  is_Some (findById User._id (Item.postedBy matched) (users db)) →
  let out := NotificationRoutes.matchAlert userId body now db in
  ∃ item' matched',
    out.1 = Sent 200 {| NotificationRoutes.alertItem := a;
                        NotificationRoutes.alertMatch := b;
                        NotificationRoutes.alertConfidence :=
                          NotificationRoutes.confidence body |} ∧
    findById Item._id a (items out.2) = Some item' ∧
    findById Item._id b (items out.2) = Some matched' ∧
    b ∈ Item.itemId <$> Item.potentialMatches item' ∧
    a ∈ Item.itemId <$> Item.potentialMatches matched' ∧
    (∀ j, j ∈ Item.itemId <$> Item.potentialMatches item →
          j ∈ Item.itemId <$> Item.potentialMatches item') ∧
    (∀ j, j ∈ Item.itemId <$> Item.potentialMatches matched →
          j ∈ Item.itemId <$> Item.potentialMatches matched') ∧
    users out.2 = users db ∧ chats out.2 = chats db ∧
    messages out.2 = messages db.
Proof.
  intros Ha Hb Hab Hitem Hmatched Hauth Howner Howner'. cbn zeta.
  destruct (matchAlert_run userId body now db a b item matched)
    as (item' & matched' & items' & -> & ? & ? & ? & ? & ? & ? & ? & ?);
    try done.
  exists item', matched'. by repeat split.
Qed.

Lemma matchAlert_links_witness :
  let body :=
    {| NotificationRoutes.itemId := Some "i1";
       NotificationRoutes.matchedItemId := Some "i2";
       NotificationRoutes.confidence := 0.9 |} in
  let out := NotificationRoutes.matchAlert "a1" body 11 Samples.db0 in
  ∃ item' matched',
    out.1 = Sent 200 {| NotificationRoutes.alertItem := "i1";
                        NotificationRoutes.alertMatch := "i2";
                        NotificationRoutes.alertConfidence :=
                          NotificationRoutes.confidence body |} ∧
    findById Item._id "i1" (items out.2) = Some item' ∧
    findById Item._id "i2" (items out.2) = Some matched' ∧
    "i2" ∈ Item.itemId <$> Item.potentialMatches item' ∧
    "i1" ∈ Item.itemId <$> Item.potentialMatches matched' ∧
    (∀ j, j ∈ Item.itemId <$> Item.potentialMatches Samples.lostPhone →
          j ∈ Item.itemId <$> Item.potentialMatches item') ∧
    (∀ j, j ∈ Item.itemId <$> Item.potentialMatches Samples.foundPhone →
          j ∈ Item.itemId <$> Item.potentialMatches matched') ∧
    users out.2 = users Samples.db0 ∧ chats out.2 = chats Samples.db0 ∧
    messages out.2 = messages Samples.db0.
Proof.
  apply (matchAlert_links "a1" _ 11 Samples.db0 "i1" "i2" Samples.lostPhone
           Samples.foundPhone); try reflexivity.
  - discriminate.
  - by left.
  - by eexists.
  - by eexists.
Defined.

(** X10: a match alert is recorded once: after an accepted alert about two
    different items, a further alert about the same two items, by the poster
    of either and with whatever confidence, is answered with 200 and leaves
    the database as it is, so that the entries keep the confidence of the
    first alert. *)
Theorem matchAlert_once userId userId' body conf' now now' db a b item matched :
  NotificationRoutes.itemId body = Some a →
  NotificationRoutes.matchedItemId body = Some b →
  a ≠ b →
  findById Item._id a (items db) = Some item →
  findById Item._id b (items db) = Some matched →
  Item.postedBy item = userId ∨ Item.postedBy matched = userId →
  Item.postedBy item = userId' ∨ Item.postedBy matched = userId' →
  is_Some (findById User._id (Item.postedBy item) (users db)) →
  is_Some (findById User._id (Item.postedBy matched) (users db)) →
  let after := (NotificationRoutes.matchAlert userId body now db).2 in
  let again :=
    {| NotificationRoutes.itemId := Some a;
       NotificationRoutes.matchedItemId := Some b;
       NotificationRoutes.confidence := conf' |} in
  NotificationRoutes.matchAlert userId' again now' after =
    (Sent 200 {| NotificationRoutes.alertItem := a;
                 NotificationRoutes.alertMatch := b;
                 NotificationRoutes.alertConfidence := conf' |}, after).
Proof.
  intros Ha Hb Hab Hitem Hmatched Hauth Hauth' Howner Howner'. cbn zeta.
  destruct (matchAlert_run userId body now db a b item matched)
    as (item' & matched' & items' & -> & Hi' & Hm' & Hp & Hp' & Hb' & Ha' & _);
    try done.
  cbn [snd]. unfold NotificationRoutes.matchAlert.
  cbn [NotificationRoutes.itemId NotificationRoutes.matchedItemId
       NotificationRoutes.confidence mbind option_bind items setItems].
  rewrite Hi', Hm', Hp, Hp'.
  assert (bool_decide (Item.postedBy item ≠ userId')
          && bool_decide (Item.postedBy matched ≠ userId') = false) as ->.
  { destruct Hauth' as [<-|<-].
    - by rewrite (bool_decide_false (_ ≠ _)) by (by intros ?).
    - rewrite (bool_decide_false (Item.postedBy matched ≠ _)) by (by intros ?).
      apply andb_false_r. }
  destruct (findById_Some _ _ _ _ Hi') as [Hida _].
  destruct (findById_Some _ _ _ _ Hm') as [Hidb _].
  cbn zeta. rewrite Hida, Hidb.
  destruct (addPotentialMatch_cases b conf' now' item' items')
    as [[_ ->]|[Hno _]]; [|done].
  cbn [snd].
  destruct (addPotentialMatch_cases a conf' now' matched' items')
    as [[_ ->]|[Hno _]]; [|done].
  cbn [snd users setItems].
  destruct Howner as [owner ->]. destruct Howner' as [owner' ->].
  by destruct db.
Qed.

Lemma matchAlert_once_witness :
  let body :=
    {| NotificationRoutes.itemId := Some "i1";
       NotificationRoutes.matchedItemId := Some "i2";
       NotificationRoutes.confidence := 0.9 |} in
  let after := (NotificationRoutes.matchAlert "a1" body 11 Samples.db0).2 in
  let again :=
    {| NotificationRoutes.itemId := Some "i1";
       NotificationRoutes.matchedItemId := Some "i2";
       NotificationRoutes.confidence := 0.2 |} in
  NotificationRoutes.matchAlert "b2" again 12 after =
    (Sent 200 {| NotificationRoutes.alertItem := "i1";
                 NotificationRoutes.alertMatch := "i2";
                 NotificationRoutes.alertConfidence := 0.2 |}, after).
Proof.
  apply (matchAlert_once "a1" "b2" _ 0.2 11 12 Samples.db0 "i1" "i2"
           Samples.lostPhone Samples.foundPhone); try reflexivity.
  - discriminate.
  - by left.
  - by right.
  - by eexists.
  - by eexists.
Defined.

(** ** The notification counter *)

Lemma foldl_add_bound {A} (g : A → nat) (bound : nat) l : ∀ start,
  (∀ x, x ∈ l → g x ≤ bound)%nat →
  (foldl (λ total x, total + g x) start l ≤ start + bound * length l)%nat.
Proof.
  induction l as [|x l IH]; intros start Hg; simpl; [lia|].
  etrans; [apply IH|].
  - intros y Hy. apply Hg. by right.
  - pose proof (Hg x ltac:(by left)). lia.
Qed.

(** X11: the notification counter of a user is at most ten times the number
    of the user's active items: every item contributes the matches that the
    match finder returns for it, never more than ten. *)
Theorem notification_unreadCount_bound `{Platform} userId db :
  (NotificationRoutes.unreadCount userId db
   ≤ 10 * length (filter (NotificationRoutes.activeOf userId) (items db)))%nat.
Proof.
  unfold NotificationRoutes.unreadCount.
  etrans; [apply (foldl_add_bound _ 10)|simpl; lia].
  intros item _. unfold Item.findPotentialMatches. rewrite length_take. lia.
Qed.

(** ** Invariants of the item routes *)

Lemma setItemsPosted_consistent n u :
  levelConsistent u → levelConsistent (User.setItemsPosted n u).
Proof. done. Qed.

(** X12: posting and resolving keep the levels right: if every stored user
    has the level that the points stand for, the same holds after any request
    to post an item and after any request to resolve one, whatever its
    outcome. *)
Theorem item_routes_keep_levels `{Platform} db :
  Forall levelConsistent (users db) →
  (∀ userId body files now newId,
     Forall levelConsistent
       (users (ItemRoutes.create userId body files now newId db).2)) ∧
  (∀ userId id now,
     Forall levelConsistent (users (ItemRoutes.resolve userId id now db).2)).
Proof.
  intros Hdb. split.
  - intros userId body files now newId. unfold ItemRoutes.create.
    destruct (ItemRoutes.build _ _ _ _ _) as [item|]; [|done].
    destruct (Item.validate item); [|done]. cbn [negb].
    cbn [users items setItems setUsers].
    assert (Forall levelConsistent
              (updateById User._id
                 (λ u, User.setItemsPosted (User.itemsPosted u + 1) u)
                 userId (users db))) as Hdb2.
    { apply Forall_updateOne; [done|]. intros u Hu _.
      rewrite Forall_forall in Hdb. by apply setItemsPosted_consistent, Hdb. }
    destruct (findById User._id userId _) as [user|] eqn:Huser; [|done].
    cbn [snd users setItems setUsers User.addPoints].
    apply Forall_saveDoc; [done|].
    apply addPointsDoc_consistent; [|lia].
    apply findById_Some in Huser as [_ Hin].
    rewrite Forall_forall in Hdb2. by apply Hdb2.
  - intros userId id now. unfold ItemRoutes.resolve.
    destruct (findById Item._id id (items db)) as [item|]; [|done].
    case_bool_decide; [done|]. cbn zeta. cbn [users setItems].
    destruct (findById User._id userId (users db)) as [user|] eqn:Huser;
      [|done].
    cbn [snd users setItems setUsers User.addPoints].
    apply Forall_saveDoc; [done|].
    apply addPointsDoc_consistent; [|lia].
    apply findById_Some in Huser as [_ Hin].
    rewrite Forall_forall in Hdb. by apply Hdb.
Qed.

Lemma item_routes_keep_levels_witness :
  (∀ userId body files now newId,
     Forall levelConsistent
       (users (ItemRoutes.create userId body files now newId Samples.db0).2)) ∧
  (∀ userId id now,
     Forall levelConsistent
       (users (ItemRoutes.resolve userId id now Samples.db0).2)).
Proof.
  apply (item_routes_keep_levels Samples.db0).
  repeat constructor.
Defined.

Lemma validate_setResolved userId now i :
  Item.validate i = true → Item.validate (Item.setResolved userId now i) = true.
Proof.
  unfold Item.validate. cbn. rewrite !andb_true_iff.
  intros (((((((((? & ?) & ?) & ?) & ?) & ?) & ?) & ?) & ?) & ?).
  repeat split; try done.
Qed.

Lemma elem_of_deleteById_inv {A} (key : A → ObjectId) i c x :
  x ∈ deleteById key i c → x ∈ c.
Proof.
  induction c as [|y c IH]; [done|]. cbn [deleteById].
  destruct (decide (key y = i)); rewrite ?elem_of_cons; intuition.
Qed.

Lemma addPotentialMatch_valid matchId conf now i c :
  Item.validate i = true → Forall (λ i, Item.validate i = true) c →
  let out := Item.addPotentialMatch matchId conf now i c in
  Item.validate out.1 = true ∧ Forall (λ i, Item.validate i = true) out.2.
Proof.
  intros Hi Hc. cbn zeta.
  destruct (addPotentialMatch_cases matchId conf now i c)
    as [[_ ->]|[_ ->]]; [done|].
  cbn [fst snd]. split; [done|]. by apply Forall_saveDoc.
Qed.

Lemma addPotentialMatch_run_valid conf now ms : ∀ i c,
  Item.validate i = true → Forall (λ i, Item.validate i = true) c →
  let st :=
    foldl (λ st m, Item.addPotentialMatch (Item._id m) conf now st.1 st.2)
          (i, c) ms in
  Item.validate st.1 = true ∧ Forall (λ i, Item.validate i = true) st.2.
Proof.
  induction ms as [|m ms IH]; intros i c Hi Hc; cbn zeta; [done|].
  cbn [foldl fst snd].
  destruct (addPotentialMatch_valid (Item._id m) conf now i c Hi Hc) as [? ?].
  destruct (Item.addPotentialMatch (Item._id m) conf now i c) as [i' c'].
  by apply IH.
Qed.

(** X13: the item routes never store an item that fails the schema: if every
    stored item passes the validators, so does every stored item after a
    request to post, edit, resolve, fetch or delete an item or to record a
    match alert, whatever the request holds and whatever its outcome. *)
Theorem item_routes_keep_items_valid `{Platform} db :
  itemsValid db →
  (∀ userId body files now newId,
     itemsValid (ItemRoutes.create userId body files now newId db).2) ∧
  (∀ userId id body, itemsValid (ItemRoutes.update userId id body db).2) ∧
  (∀ userId id now, itemsValid (ItemRoutes.resolve userId id now db).2) ∧
  (∀ id, itemsValid (ItemRoutes.getItem id db).2) ∧
  (∀ destroy userId id,
     itemsValid (ItemRoutes.deleteItem destroy userId id db).2) ∧
  (∀ userId body now,
     itemsValid (NotificationRoutes.matchAlert userId body now db).2).
Proof.
  unfold itemsValid. intros Hdb.
  assert (∀ i id, findById Item._id id (items db) = Some i →
                  Item.validate i = true) as Hstored.
  { intros i id [_ Hi]%findById_Some. rewrite Forall_forall in Hdb. auto. }
  repeat split.
  - intros userId body files now newId. unfold ItemRoutes.create.
    destruct (ItemRoutes.build _ _ _ _ _) as [item|]; [|done].
    destruct (Item.validate item) eqn:Hitem; [|done]. cbn [negb].
    cbn [users items setItems setUsers].
    destruct (findById User._id userId _); [|by apply Forall_app_2; auto].
    cbn [snd items setItems setUsers].
    apply addPotentialMatch_run_valid; [done|]. by apply Forall_app_2; auto.
  - intros userId id body. unfold ItemRoutes.update.
    destruct (findById Item._id id (items db)) as [item|]; [|done].
    case_bool_decide; [done|].
    destruct (ItemRoutes.assign body item) as [item'|]; [|done].
    destruct (Item.validate item') eqn:Hitem'; [|done].
    cbn. by apply Forall_saveDoc.
  - intros userId id now. unfold ItemRoutes.resolve.
    destruct (findById Item._id id (items db)) as [item|] eqn:Hitem; [|done].
    case_bool_decide; [done|]. cbn zeta. cbn [users setItems].
    assert (Forall (λ i, Item.validate i = true)
              (Item.markAsResolved userId now item (items db)).2) as Hres.
    { cbn. apply Forall_saveDoc; [done|]. eapply validate_setResolved, Hstored.
      exact Hitem. }
    by destruct (findById User._id userId (users db)).
  - intros id. unfold ItemRoutes.getItem.
    destruct (findById Item._id id (items db)) as [item|] eqn:Hitem; [|done].
    cbn. apply Forall_saveDoc; [done|].
    change (Item.validate item = true). by eapply Hstored.
  - intros destroy userId id. unfold ItemRoutes.deleteItem.
    destruct (findById Item._id id (items db)); [|done].
    case_bool_decide; [done|]. destruct (forallb _ _); [|done]. cbn.
    rewrite Forall_forall in *. intros x Hx.
    by eapply Hdb, elem_of_deleteById_inv.
  - intros userId body now. unfold NotificationRoutes.matchAlert.
    destruct (NotificationRoutes.itemId body ≫= _) as [item|] eqn:Hitem;
      [|done].
    destruct (NotificationRoutes.matchedItemId body ≫= _) as [matched|]
      eqn:Hmatched; [|done].
    destruct (_ && _); [done|]. cbn zeta.
    assert (Item.validate item = true) as Hi.
    { destruct (NotificationRoutes.itemId body); [|done]. by eapply Hstored. }
    assert (Item.validate matched = true) as Hm.
    { destruct (NotificationRoutes.matchedItemId body); [|done].
      by eapply Hstored. }
    destruct (addPotentialMatch_valid (Item._id matched)
                (NotificationRoutes.confidence body) now item (items db) Hi Hdb)
      as [_ H1]. cbn zeta in H1.
    destruct (addPotentialMatch_valid (Item._id item)
                (NotificationRoutes.confidence body) now matched _ Hm H1)
      as [_ H2]. cbn zeta in H2.
    cbn [users setItems].
    destruct (findById User._id (Item.postedBy item) (users db));
      by destruct (findById User._id (Item.postedBy matched) (users db)).
Qed.

Lemma item_routes_keep_items_valid_witness :
  (∀ userId body files now newId,
     itemsValid (ItemRoutes.create userId body files now newId Samples.db0).2) ∧
  (∀ userId id body, itemsValid (ItemRoutes.update userId id body Samples.db0).2) ∧
  (∀ userId id now, itemsValid (ItemRoutes.resolve userId id now Samples.db0).2) ∧
  (∀ id, itemsValid (ItemRoutes.getItem id Samples.db0).2) ∧
  (∀ destroy userId id,
     itemsValid (ItemRoutes.deleteItem destroy userId id Samples.db0).2) ∧
  (∀ userId body now,
     itemsValid (NotificationRoutes.matchAlert userId body now Samples.db0).2).
Proof.
  apply (item_routes_keep_items_valid Samples.db0).
  unfold itemsValid. repeat constructor.
Defined.

(** ** Invariants of the chat routes *)

Lemma markFor_receipts chat user now m :
  NoDup (Message.userId <$> Message.readBy m) →
  NoDup (Message.userId <$> Message.readBy (markFor chat user now m)).
Proof.
  intros Hm. unfold markFor. case_decide as Hu; [|done].
  destruct Hu as (_ & _ & Hno). cbn. rewrite fmap_app.
  apply NoDup_app. split; [done|]. split; [|apply NoDup_singleton].
  intros x Hx Hx'. apply list_elem_of_singleton in Hx'. cbn in Hx'. subst x.
  apply Hno. apply list_elem_of_fmap in Hx as (r & Hr & Hin).
  apply Exists_exists. exists r. by split.
Qed.

(** X14: read receipts stay unique: if no stored message holds two receipts
    of one user, the same is true after any request to start a chat, send a
    message, list messages, mark a chat as read or archive it. *)
Theorem chat_routes_keep_receipts_unique db :
  receiptsUnique db →
  (∀ userId body now newChatId newMessageId,
     receiptsUnique
       (ChatRoutes.start userId body now newChatId newMessageId db).2) ∧
  (∀ userId chatId body now newId,
     receiptsUnique (ChatRoutes.sendMessage userId chatId body now newId db).2) ∧
  (∀ userId chatId page limit now,
     receiptsUnique (ChatRoutes.listMessages userId chatId page limit now db).2) ∧
  (∀ userId chatId now,
     receiptsUnique (ChatRoutes.markRead userId chatId now db).2) ∧
  (∀ userId chatId, receiptsUnique (ChatRoutes.archive userId chatId db).2).
Proof.
  unfold receiptsUnique. intros Hdb. repeat split.
  - intros userId body now newChatId newMessageId. unfold ChatRoutes.start.
    destruct (ChatRoutes.itemId body) as [i|]; [|done].
    destruct (findById Item._id i (items db)) as [item|]; [|done].
    case_bool_decide; [done|]. unfold ChatRoutes.startChat. cbn zeta.
    destruct (Chat.findOrCreate _ _ _ _ _ _).1 as [chat|]; [|done].
    destruct (_ && _); [|done]. unfold Message.save.
    destruct (Message.validate _); [|done]. cbn.
    apply Forall_app_2; [done|]. repeat constructor.
  - intros userId chatId body now newId. unfold ChatRoutes.sendMessage.
    destruct (findById Chat._id chatId (chats db)); [|done].
    destruct (negb _); [done|]. cbn zeta. unfold Message.save.
    destruct (Message.validate _); [|done]. cbn.
    apply Forall_app_2; [done|]. repeat constructor.
  - intros userId chatId page limit now. unfold ChatRoutes.listMessages.
    cbn zeta. destruct (findById Chat._id chatId (chats db)); [|done].
    destruct (negb _); [done|]. case_bool_decide; [done|]. cbn.
    apply Forall_fmap. eapply Forall_impl; [exact Hdb|].
    intros m Hm. by apply (markFor_receipts chatId userId now).
  - intros userId chatId now. by rewrite markRead_messages.
  - intros userId chatId. unfold ChatRoutes.archive.
    destruct (findById Chat._id chatId (chats db)); [|done].
    by destruct (negb _).
Qed.

Lemma chat_routes_keep_receipts_unique_witness :
  (∀ userId body now newChatId newMessageId,
     receiptsUnique
       (ChatRoutes.start userId body now newChatId newMessageId Samples.db0).2) ∧
  (∀ userId chatId body now newId,
     receiptsUnique
       (ChatRoutes.sendMessage userId chatId body now newId Samples.db0).2) ∧
  (∀ userId chatId page limit now,
     receiptsUnique
       (ChatRoutes.listMessages userId chatId page limit now Samples.db0).2) ∧
  (∀ userId chatId now,
     receiptsUnique (ChatRoutes.markRead userId chatId now Samples.db0).2) ∧
  (∀ userId chatId,
     receiptsUnique (ChatRoutes.archive userId chatId Samples.db0).2).
Proof.
  apply (chat_routes_keep_receipts_unique Samples.db0).
  unfold receiptsUnique. repeat constructor.
Defined.

(** X15: sending keeps the counters right: if, for a chat whose participants
    are listed once, the counter kept for each participant is the number of
    the chat's messages that the participant has not read, this is still so
    after any request to send a message to the chat, accepted or not. *)
Theorem sendMessage_keeps_counters sender chatId body now newId db chat :
  findById Chat._id chatId (chats db) = Some chat →
  NoDup (Chat.participants chat) →
  countersAgree chat (messages db) →
  let out := ChatRoutes.sendMessage sender chatId body now newId db in
  ∃ chat',
    findById Chat._id chatId (chats out.2) = Some chat' ∧
    countersAgree chat' (messages out.2).
Proof.
  intros Hchat Hnd Hagree. cbn zeta. unfold ChatRoutes.sendMessage.
  rewrite Hchat. destruct (negb _); [by exists chat|]. cbn zeta.
  unfold Message.save. destruct (Message.validate _); [|by exists chat].
  set (m := ChatRoutes.messageOf sender chatId body now newId).
  destruct (preSave_chat m now chat (chats db) Hchat)
    as (chat' & Hchat' & Hps & _ & Hcount).
  change (Message.chatId m) with chatId in Hchat'.
  change (Message.sender m) with sender in Hcount.
  exists chat'. cbn [snd chats messages setChats setMessages].
  split; [done|]. intros B HB. rewrite Hps in HB.
  destruct (findById_Some _ _ _ _ Hchat') as [-> _].
  destruct (findById_Some _ _ _ _ Hchat) as [Hid _].
  rewrite Hcount, (Hagree B HB), Hid, getUnreadCount_insert.
  destruct (decide (B = sender)) as [->|HB'].
  - rewrite decide_False; [lia|]. by intros (_ & ? & _).
  - rewrite decide_True, occurrences_NoDup by
      (done || (split; [done|]; split; [done|]; by intros ?%Exists_nil)).
    lia.
Qed.

Lemma sendMessage_keeps_counters_witness :
  let body :=
    {| ChatRoutes.content := Some "Found near the station";
       ChatRoutes.messageType := None; ChatRoutes.imageUrl := None;
       ChatRoutes.imageCaption := None; ChatRoutes.location := None |} in
  let start := (ChatRoutes.listMessages "a1" "c1" None None 3 Samples.db0).2 in
  let out := ChatRoutes.sendMessage "b2" "c1" body 4 "m3" start in
  ∃ chat',
    findById Chat._id "c1" (chats out.2) = Some chat' ∧
    countersAgree chat' (messages out.2).
Proof.
  intros body start.
  eapply (sendMessage_keeps_counters "b2" "c1" body 4 "m3" start).
  - reflexivity.
  - apply (bool_decide_unpack _). vm_compute. exact I.
  - intros B HB. cbn in HB.
    apply elem_of_cons in HB as [->|HB]; [reflexivity|].
    apply elem_of_cons in HB as [->|HB]; [reflexivity|].
    by apply not_elem_of_nil in HB.
Defined.

Lemma unreadBy_markFor_other chat chat' user now B m :
  B ≠ user →
  Message.unreadBy chat' B (markFor chat user now m) ↔ Message.unreadBy chat' B m.
Proof.
  intros HB. unfold markFor. case_decide; [|done].
  unfold Message.unreadBy. cbn. rewrite Exists_app, Exists_cons, Exists_nil.
  cbn. intuition.
Qed.

Lemma getUnreadCount_markFor_other chat chat' user now B msgs :
  B ≠ user →
  Message.getUnreadCount chat' B (markFor chat user now <$> msgs) =
  Message.getUnreadCount chat' B msgs.
Proof.
  intros HB. unfold Message.getUnreadCount.
  induction msgs as [|m msgs IH]; [done|].
  rewrite fmap_cons, !filter_cons.
  destruct (decide (Message.unreadBy chat' B m)) as [Hm|Hm].
  - rewrite decide_True by (by apply unreadBy_markFor_other). simpl. by rewrite IH.
  - rewrite decide_False; [done|]. by rewrite unreadBy_markFor_other.
Qed.

Lemma listMessages_run requester chatId page limit now db chat :
  findById Chat._id chatId (chats db) = Some chat →
  requester ∈ Chat.participants chat →
  1 ≤ default 1 page →
  1 ≤ default 50 limit →
  (ChatRoutes.listMessages requester chatId page limit now db).2 =
    setChats
      (saveDoc Chat._id
         (Chat.setUnreadCount (<[requester:=0]> (Chat.unreadCount chat)) now chat)
         (chats db))
      (setMessages (markFor chatId requester now <$> messages db) db).
Proof.
  intros Hchat Hin Hpage Hlimit. unfold ChatRoutes.listMessages. cbn zeta.
  rewrite Hchat, bool_decide_true by done. cbn [negb].
  by rewrite bool_decide_false by nia.
Qed.

(** X16: listing sets the counters right: when a participant lists the
    messages of a chat (page and page size at least one) and the counters of
    the other participants are right, then afterwards the counter of every
    participant, the requester included, is the number of the chat's messages
    that the participant has not read. *)
Theorem listMessages_sets_counters requester chatId page limit now db chat :
  findById Chat._id chatId (chats db) = Some chat →
  requester ∈ Chat.participants chat →
  1 ≤ default 1 page →
  1 ≤ default 50 limit →
  (∀ B, B ∈ Chat.participants chat → B ≠ requester →
        Chat.unreadOf B chat =
          Z.of_nat (Message.getUnreadCount chatId B (messages db))) →
  let out := ChatRoutes.listMessages requester chatId page limit now db in
  ∃ chat',
    findById Chat._id chatId (chats out.2) = Some chat' ∧
    countersAgree chat' (messages out.2).
Proof.
  intros Hchat Hin Hpage Hlimit Hothers. cbn zeta.
  rewrite (listMessages_run _ _ _ _ _ _ _ Hchat Hin Hpage Hlimit).
  destruct (findById_Some _ _ _ _ Hchat) as [Hid _].
  eexists. cbn [chats messages setChats setMessages]. split.
  - rewrite <- Hid at 1.
    apply (findById_saveDoc_eq Chat._id
             (Chat.setUnreadCount (<[requester:=0]> (Chat.unreadCount chat))
                now chat)).
    cbn. rewrite Hid, Hchat. eauto.
  - intros B HB. cbn in HB. cbn [Chat._id Chat.setUnreadCount]. rewrite Hid.
    unfold Chat.unreadOf. cbn [Chat.unreadCount Chat.setUnreadCount].
    destruct (decide (B = requester)) as [->|HB'].
    + by rewrite lookup_insert_eq, getUnreadCount_marked.
    + rewrite lookup_insert_ne by done.
      rewrite getUnreadCount_markFor_other by done. by apply Hothers.
Qed.

Lemma listMessages_sets_counters_witness :
  let start := (ChatRoutes.markRead "a1" "c1" 2 Samples.db0).2 in
  let out := ChatRoutes.listMessages "a1" "c1" None None 3 start in
  ∃ chat',
    findById Chat._id "c1" (chats out.2) = Some chat' ∧
    countersAgree chat' (messages out.2).
Proof.
  intros start.
  eapply (listMessages_sets_counters "a1" "c1" None None 3 start).
  - reflexivity.
  - apply (bool_decide_unpack _). vm_compute. exact I.
  - simpl. lia.
  - simpl. lia.
  - intros B HB HB'. cbn in HB.
    apply elem_of_cons in HB as [->|HB]; [done|].
    apply elem_of_cons in HB as [->|HB]; [reflexivity|].
    by apply not_elem_of_nil in HB.
Defined.

(** ** What the message hook leaves alone *)

Lemma incrementUnread_run_shape from now ps : ∀ c cs,
  findById Chat._id (Chat._id c) cs = Some c →
  let st :=
    foldl (λ st p, if bool_decide (p ≠ from)
                   then Chat.incrementUnread p now st.1 st.2 else st)
          (c, cs) ps in
  chatShape st.1 = chatShape c ∧ chatShape <$> st.2 = chatShape <$> cs ∧
  findById Chat._id (Chat._id c) st.2 = Some st.1.
Proof.
  induction ps as [|p ps IH]; intros c cs Hc; cbn zeta; [done|].
  cbn [foldl fst snd]. case_bool_decide; [|by apply IH].
  set (c' := (Chat.incrementUnread p now c cs).1).
  assert (Chat.incrementUnread p now c cs = (c', saveDoc Chat._id c' cs))
    as -> by done.
  assert (findById Chat._id (Chat._id c') (saveDoc Chat._id c' cs) = Some c')
    as Hc'.
  { apply findById_saveDoc_eq. change (Chat._id c') with (Chat._id c).
    rewrite Hc. eauto. }
  destruct (IH c' (saveDoc Chat._id c' cs) Hc') as (Hs & Hss & Hf).
  split; [by rewrite Hs|]. split; [|exact Hf].
  rewrite Hss. apply fmap_updateOne. intros x Hx.
  change (Chat._id c') with (Chat._id c) in Hx.
  unfold findById in Hc. rewrite Hc in Hx. by injection Hx as <-.
Qed.

(** The hook of a new message changes the last message, the last activity
    and the counters of chats, and nothing else: identifiers, participants,
    items and the archive flag stay, chat by chat. *)
Lemma preSave_shape m now cs :
  chatShape <$> Message.preSave m now cs = chatShape <$> cs.
Proof.
  unfold Message.preSave. cbn zeta.
  set (cs1 := updateById _ _ _ cs).
  assert (chatShape <$> cs1 = chatShape <$> cs) as Hcs1.
  { apply fmap_updateOne. by intros x _. }
  destruct (findById Chat._id (Message.chatId m) cs1) as [chat|] eqn:Hchat;
    [|done].
  destruct (findById_Some _ _ _ _ Hchat) as [Hid _]. rewrite <- Hid in Hchat.
  destruct (incrementUnread_run_shape (Message.sender m) now
              (Chat.participants chat) chat cs1 Hchat) as (_ & Hss & _).
  cbn zeta in Hss. by rewrite Hss.
Qed.

Lemma Forall_shape (Q : ObjectId * list ObjectId * ObjectId * bool → Prop) cs cs' :
  chatShape <$> cs' = chatShape <$> cs →
  Forall (λ c, Q (chatShape c)) cs → Forall (λ c, Q (chatShape c)) cs'.
Proof.
  intros Hs Hcs. apply (Forall_fmap chatShape Q).
  rewrite Hs. by apply Forall_fmap.
Qed.

Lemma sortIds_two A B :
  A ≠ B → ∃ A' B', A' ≠ B' ∧ Chat.sortIds [A; B] ≡ₚ [A'; B'].
Proof.
  intros HAB. exists A, B. split; [done|].
  unfold Chat.sortIds. apply merge_sort_Permutation.
Qed.

(** X17: chats stay between two different users: if every stored chat has
    two different participants, this is still so after any request to start
    a chat, send a message, list messages, mark a chat as read or archive
    it. *)
Theorem chat_routes_keep_chats_of_two db :
  chatsOfTwo db →
  (∀ userId body now newChatId newMessageId,
     chatsOfTwo (ChatRoutes.start userId body now newChatId newMessageId db).2) ∧
  (∀ userId chatId body now newId,
     chatsOfTwo (ChatRoutes.sendMessage userId chatId body now newId db).2) ∧
  (∀ userId chatId page limit now,
     chatsOfTwo (ChatRoutes.listMessages userId chatId page limit now db).2) ∧
  (∀ userId chatId now,
     chatsOfTwo (ChatRoutes.markRead userId chatId now db).2) ∧
  (∀ userId chatId, chatsOfTwo (ChatRoutes.archive userId chatId db).2).
Proof.
  unfold chatsOfTwo. intros Hdb.
  set (Q := λ s : ObjectId * list ObjectId * ObjectId * bool,
              ∃ A B : ObjectId, A ≠ B ∧ s.1.1.2 ≡ₚ [A; B]).
  change (Forall (λ c, Q (chatShape c)) (chats db)) in Hdb.
  assert (∀ chatId chat, findById Chat._id chatId (chats db) = Some chat →
                         Q (chatShape chat)) as Hstored.
  { intros chatId chat [_ Hin]%findById_Some.
    rewrite Forall_forall in Hdb. auto. }
  repeat split.
  - intros userId body now newChatId newMessageId. unfold ChatRoutes.start.
    destruct (ChatRoutes.itemId body) as [i|]; [|done].
    destruct (findById Item._id i (items db)) as [item|]; [|done].
    case_bool_decide as Hown; [done|]. unfold ChatRoutes.startChat. cbn zeta.
    assert (Forall (λ c, Q (chatShape c))
              (Chat.findOrCreate userId (Item.postedBy item) i now newChatId
                 (chats db)).2) as Hcreated.
    { unfold Chat.findOrCreate. cbn zeta.
      destruct (findOne _ (chats db)); [done|].
      case_decide; [done|]. cbn [snd].
      apply Forall_app_2; [done|]. constructor; [|done].
      apply sortIds_two. congruence. }
    destruct (Chat.findOrCreate _ _ _ _ _ _).1 as [chat|]; [|done].
    destruct (_ && _); [|done]. unfold Message.save.
    destruct (Message.validate _); [|done]. cbn [snd chats setChats setMessages].
    by apply (Forall_shape Q _ _ (preSave_shape _ _ _)).
  - intros userId chatId body now newId. unfold ChatRoutes.sendMessage.
    destruct (findById Chat._id chatId (chats db)); [|done].
    destruct (negb _); [done|]. cbn zeta. unfold Message.save.
    destruct (Message.validate _); [|done]. cbn [snd chats setChats setMessages].
    by apply (Forall_shape Q _ _ (preSave_shape _ _ _)).
  - intros userId chatId page limit now. unfold ChatRoutes.listMessages.
    cbn zeta.
    destruct (findById Chat._id chatId (chats db)) as [chat|] eqn:Hchat;
      [|done].
    destruct (negb _); [done|]. case_bool_decide; [done|].
    cbn [snd chats setChats setMessages Chat.markAsRead].
    apply Forall_saveDoc; [done|]. by apply (Hstored chatId chat).
  - intros userId chatId now. unfold ChatRoutes.markRead.
    destruct (findById Chat._id chatId (chats db)) as [chat|] eqn:Hchat;
      [|done].
    destruct (negb _); [done|].
    cbn [snd chats setChats setMessages Chat.markAsRead].
    apply Forall_saveDoc; [done|]. by apply (Hstored chatId chat).
  - intros userId chatId. unfold ChatRoutes.archive.
    destruct (findById Chat._id chatId (chats db)) as [chat|] eqn:Hchat;
      [|done].
    destruct (negb _); [done|]. cbn [snd chats setChats].
    apply Forall_saveDoc; [done|]. by apply (Hstored chatId chat).
Qed.

Lemma chat_routes_keep_chats_of_two_witness :
  (∀ userId body now newChatId newMessageId,
     chatsOfTwo
       (ChatRoutes.start userId body now newChatId newMessageId Samples.db0).2) ∧
  (∀ userId chatId body now newId,
     chatsOfTwo
       (ChatRoutes.sendMessage userId chatId body now newId Samples.db0).2) ∧
  (∀ userId chatId page limit now,
     chatsOfTwo
       (ChatRoutes.listMessages userId chatId page limit now Samples.db0).2) ∧
  (∀ userId chatId now,
     chatsOfTwo (ChatRoutes.markRead userId chatId now Samples.db0).2) ∧
  (∀ userId chatId, chatsOfTwo (ChatRoutes.archive userId chatId Samples.db0).2).
Proof.
  apply (chat_routes_keep_chats_of_two Samples.db0).
  unfold chatsOfTwo. constructor; [|constructor].
  exists "a1", "b2". split; [discriminate|reflexivity].
Defined.

(** ** Archived chats *)

Section UniqueKeys.
Context {A : Type} (key : A → ObjectId).

Lemma NoDup_key_eq c x y :
  NoDup (key <$> c) → x ∈ c → y ∈ c → key x = key y → x = y.
Proof.
  induction c as [|z c IH]; [by intros _ ?%not_elem_of_nil|].
  rewrite fmap_cons. intros [Hz Hnd]%NoDup_cons.
  rewrite !elem_of_cons. intros [->|Hx] [->|Hy] Hk; [done| | |by apply IH].
  - destruct Hz. rewrite Hk. by apply list_elem_of_fmap_2.
  - destruct Hz. rewrite <- Hk. by apply list_elem_of_fmap_2.
Qed.

Lemma elem_of_saveDoc_other d c x :
  key x ≠ key d → x ∈ saveDoc key d c ↔ x ∈ c.
Proof.
  intros Hk. split.
  - intros Hx. apply elem_of_updateOne in Hx as [?|(y & _ & _ & ->)]; done.
  - unfold saveDoc, updateById. induction c as [|y c IH]; [done|].
    cbn [updateOne]. destruct (decide (key y = key d)) as [Hy|Hy].
    + rewrite !elem_of_cons. intros [->|?]; [done|by right].
    + rewrite !elem_of_cons. intros [->|?]; [by left|right; auto].
Qed.
End UniqueKeys.

Lemma elem_of_getChats u db entry :
  entry ∈ ChatRoutes.getChats u db ↔
  ∃ c, c ∈ chats db ∧ ChatRoutes.activeFor u c ∧
       entry = (c, Message.getUnreadCount (Chat._id c) u (messages db)).
Proof.
  unfold ChatRoutes.getChats. rewrite list_elem_of_fmap. split.
  - intros (c & -> & Hc). rewrite merge_sort_Permutation in Hc.
    apply list_elem_of_filter in Hc as [? ?]. by exists c.
  - intros (c & Hc & Hact & ->). exists c. split; [done|].
    rewrite merge_sort_Permutation. by apply list_elem_of_filter.
Qed.

(** X18: archiving hides a chat and nothing else: when a participant
    archives a chat (chat identifiers being unique), the answer is 200, the
    chat is in nobody's chat list any more, every other entry of every chat
    list is as before, and no message is touched. *)
Theorem archive_hides userId chatId db chat :
  NoDup (Chat._id <$> chats db) →
  findById Chat._id chatId (chats db) = Some chat →
  userId ∈ Chat.participants chat →
  let out := ChatRoutes.archive userId chatId db in
  out.1 = Sent 200 "Chat archived successfully" ∧
  (∀ u entry, entry ∈ ChatRoutes.getChats u out.2 →
              Chat._id entry.1 ≠ chatId) ∧
  (∀ u entry, Chat._id entry.1 ≠ chatId →
     (entry ∈ ChatRoutes.getChats u out.2 ↔ entry ∈ ChatRoutes.getChats u db)) ∧
  messages out.2 = messages db.
Proof.
  intros Hnd Hchat Hin. cbn zeta. unfold ChatRoutes.archive.
  rewrite Hchat, bool_decide_true by done. cbn [negb fst snd].
  destruct (findById_Some _ _ _ _ Hchat) as [Hid _].
  split; [done|]. split; [|split; [|done]].
  - intros u entry (c & Hc & [_ Hact] & ->)%elem_of_getChats Hk.
    cbn [chats setChats fst] in *.
    assert (c = Chat.setIsActive false chat) as ->; [|done].
    apply (elem_of_saveDoc_key Chat._id _ (chats db)); [done..|].
    cbn. congruence.
  - intros u entry Hk. rewrite !elem_of_getChats.
    cbn [chats messages setChats].
    split; intros (c & Hc & Hact & ->); exists c; cbn [fst] in Hk;
      (split; [|done]).
    + eapply elem_of_saveDoc_other; [|exact Hc]. cbn. congruence.
    + apply elem_of_saveDoc_other; [cbn; congruence|done].
Qed.

Lemma archive_hides_witness :
  let out := ChatRoutes.archive "a1" "c1" Samples.db0 in
  out.1 = Sent 200 "Chat archived successfully" ∧
  (∀ u entry, entry ∈ ChatRoutes.getChats u out.2 →
              Chat._id entry.1 ≠ "c1") ∧
  (∀ u entry, Chat._id entry.1 ≠ "c1" →
     (entry ∈ ChatRoutes.getChats u out.2
      ↔ entry ∈ ChatRoutes.getChats u Samples.db0)) ∧
  messages out.2 = messages Samples.db0.
Proof.
  apply (archive_hides "a1" "c1" Samples.db0 Samples.talk).
  - apply (bool_decide_unpack _). vm_compute. exact I.
  - reflexivity.
  - apply (bool_decide_unpack _). vm_compute. exact I.
Defined.

Lemma shape_elem (cs' : list Chat.t) : ∀ (cs : list Chat.t) (x' : Chat.t),
  chatShape <$> cs' = chatShape <$> cs → x' ∈ cs' →
  ∃ x, x ∈ cs ∧ chatShape x = chatShape x'.
Proof.
  induction cs' as [|y' cs' IH]; intros [|y cs] x' Hs; try done.
  { by intros ?%not_elem_of_nil. }
  rewrite !fmap_cons in Hs. apply (inj2 cons) in Hs as [Hy Hs].
  rewrite elem_of_cons. intros [->|Hx'].
  - exists y. split; [by left|by rewrite Hy].
  - destruct (IH cs x' Hs Hx') as (x & ? & ?). exists x. split; [by right|done].
Qed.

(** X19: starting a chat again does not bring an archived chat back: when
    the chat that [findOrCreate] returns for the requester, the poster and the
    item is archived, a request to start a chat creates no chat, and, whether
    or not it carries a message, the chat stays archived: it is in nobody's
    chat list, and the chat sent back with a 200 answer is the archived
    one. *)
Theorem start_keeps_archived userId body now newChatId newMessageId db i item
    chat :
  NoDup (Chat._id <$> chats db) →
  ChatRoutes.itemId body = Some i →
  findById Item._id i (items db) = Some item →
  Item.postedBy item ≠ userId →
  (Chat.findOrCreate userId (Item.postedBy item) i now newChatId (chats db)).1
    = Some chat →
  Chat.isActive chat = false →
  let out := ChatRoutes.start userId body now newChatId newMessageId db in
  Chat._id <$> chats out.2 = Chat._id <$> chats db ∧
  (∀ u entry, entry ∈ ChatRoutes.getChats u out.2 →
              Chat._id entry.1 ≠ Chat._id chat) ∧
  (∀ code sent, out.1 = Sent code (Some sent) →
                Chat._id sent = Chat._id chat ∧ Chat.isActive sent = false).
Proof.
  intros Hnd Hbody Hitem Hown Hreturned Hoff. cbn zeta.
  unfold ChatRoutes.start. rewrite Hbody, Hitem, bool_decide_false by done.
  unfold ChatRoutes.startChat. cbn zeta.
  assert (chat ∈ chats db ∧
            Chat.findOrCreate userId (Item.postedBy item) i now newChatId
              (chats db) = (Some chat, chats db)) as (Hchat & Hfound).
  { unfold Chat.findOrCreate in *. cbn zeta in *.
    destruct (findOne _ (chats db)) as [c|] eqn:Hf.
    - injection Hreturned as ->. by apply findOne_Some in Hf as [_ ?].
    - case_decide; [done|]. injection Hreturned as <-. done. }
  rewrite Hfound. clear Hreturned. cbn [fst snd].
  assert (∀ cs', chatShape <$> cs' = chatShape <$> chats db →
            Chat._id <$> cs' = Chat._id <$> chats db ∧
            ∀ c', c' ∈ cs' → Chat._id c' = Chat._id chat →
                  Chat.isActive c' = false) as Hshape.
  { intros cs' Hs. split.
    - rewrite (list_fmap_ext Chat._id (λ c, (chatShape c).1.1.1) cs') by done.
      rewrite (list_fmap_ext Chat._id (λ c, (chatShape c).1.1.1) (chats db))
        by done.
      change (λ c, (chatShape c).1.1.1) with ((λ s : ObjectId * list ObjectId * ObjectId * bool, s.1.1.1) ∘ chatShape).
      by rewrite !list_fmap_compose, Hs.
    - intros c' Hc' Hk. destruct (shape_elem cs' (chats db) c' Hs Hc')
        as (c & Hc & Hcs).
      assert (c = chat) as ->.
      { apply (NoDup_key_eq Chat._id (chats db)); [done..|].
        injection Hcs as -> _ _ _. done. }
      injection Hcs as _ _ _ <-. done. }
  assert (∀ (reply : Reply (option Chat.t)) cs' ms',
            chatShape <$> cs' = chatShape <$> chats db →
            (∀ code sent, reply = Sent code (Some sent) →
               sent ∈ cs' ∧ Chat._id sent = Chat._id chat) →
            Chat._id <$> cs' = Chat._id <$> chats db ∧
            (∀ u entry,
               entry ∈ ChatRoutes.getChats u (setMessages ms' (setChats cs' db)) →
               Chat._id entry.1 ≠ Chat._id chat) ∧
            (∀ code sent, reply = Sent code (Some sent) →
               Chat._id sent = Chat._id chat ∧ Chat.isActive sent = false))
    as Hgoal.
  { intros reply cs' ms' Hs Hreply. destruct (Hshape cs' Hs) as [Hids Hoff'].
    split; [done|]. split.
    - intros u entry (c & Hc & [_ Hact] & ->)%elem_of_getChats Hk.
      cbn [chats setChats setMessages fst] in *.
      by rewrite (Hoff' c Hc Hk) in Hact.
    - intros code sent Hsent. destruct (Hreply code sent Hsent) as [Hin Hk].
      split; [done|]. by apply Hoff'. }
  assert (∀ cs' code sent,
            @Sent (option Chat.t) 200 (findById Chat._id (Chat._id chat) cs')
              = Sent code (Some sent) →
            sent ∈ cs' ∧ Chat._id sent = Chat._id chat) as Hsent.
  { intros cs' code sent [= _ Hf]. by apply findById_Some in Hf as [? ?]. }
  destruct (_ && _).
  - unfold Message.save. destruct (Message.validate _).
    + cbn [fst snd chats messages setChats setMessages].
      apply (Hgoal _ _ _ (preSave_shape _ _ _)). apply Hsent.
    + cbn [fst snd]. rewrite <- (setItems_same (setChats (chats db) db)).
      destruct (Hgoal (@serverError (option Chat.t)) (chats db) (messages db)
                  eq_refl) as (? & Hlist & ?); [done|].
      split; [done|]. split; [|done].
      intros u entry Hentry. apply (Hlist u entry).
      by destruct db.
  - cbn [fst snd].
    destruct (Hgoal (Sent 200 (findById Chat._id (Chat._id chat) (chats db)))
                (chats db) (messages db) eq_refl (Hsent _))
      as (? & Hlist & ?).
    split; [done|]. split; [|done].
    intros u entry Hentry. apply (Hlist u entry). by destruct db.
Qed.

Lemma start_keeps_archived_witness :
  let db := (ChatRoutes.archive "a1" "c1" Samples.db0).2 in
  let body :=
    {| ChatRoutes.itemId := Some "i1"; ChatRoutes.message := Some "Hello" |} in
  let chat := Chat.setIsActive false Samples.talk in
  let out := ChatRoutes.start "b2" body 9 "c2" "m3" db in
  Chat._id <$> chats out.2 = Chat._id <$> chats db ∧
  (∀ u entry, entry ∈ ChatRoutes.getChats u out.2 →
              Chat._id entry.1 ≠ Chat._id chat) ∧
  (∀ code sent, out.1 = Sent code (Some sent) →
                Chat._id sent = Chat._id chat ∧ Chat.isActive sent = false).
Proof.
  intros db body chat.
  apply (start_keeps_archived "b2" body 9 "c2" "m3" db "i1" Samples.lostPhone
           chat).
  - apply (bool_decide_unpack _). vm_compute. exact I.
  - reflexivity.
  - reflexivity.
  - discriminate.
  - reflexivity.
  - reflexivity.
Defined.

(** ** One chat per pair and item *)

Lemma concerns_Permutation ps ps' item c :
  ps ≡ₚ ps' → Chat.concerns ps item c ↔ Chat.concerns ps' item c.
Proof. intros Hp. unfold Chat.concerns. by rewrite Hp. Qed.

Lemma pair_of_two (A B X Y : ObjectId) :
  A ≠ B → A ∈ [X; Y] → B ∈ [X; Y] → [A; B] ≡ₚ [X; Y].
Proof.
  intros HAB HA HB.
  repeat match goal with
         | H : _ ∈ _ :: _ |- _ => apply elem_of_cons in H as [->|H]
         | H : _ ∈ [] |- _ => by apply not_elem_of_nil in H
         end; try done.
  apply Permutation_swap.
Qed.

Lemma filter_none_length {A} (P : A → Prop) `{∀ x, Decision (P x)} l :
  Forall (λ x, ¬ P x) l → length (filter P l) = 0%nat.
Proof.
  induction 1 as [|x l Hx Hl IH]; [done|]. by rewrite filter_cons_False.
Qed.

(** X20: [findOrCreate] keeps chats unique: if two different users never
    have more than one chat about an item, this is still so in the collection
    that a call of [findOrCreate] leaves, whoever the two given users are. *)
Theorem findOrCreate_keeps_pairUnique userId1 userId2 item now newId chats :
  pairUnique chats →
  pairUnique (Chat.findOrCreate userId1 userId2 item now newId chats).2.
Proof.
  intros Huniq. unfold Chat.findOrCreate. cbn zeta.
  destruct (findOne _ chats) as [chat|] eqn:Hfound; [done|].
  case_decide; [done|]. cbn [snd].
  apply findOne_None in Hfound.
  intros A B item' HAB. unfold insertDoc. rewrite filter_app, length_app.
  rewrite filter_cons, filter_nil.
  destruct (decide (Chat.concerns [A; B] item' _)) as [Hnew|Hnew];
    [|specialize (Huniq A B item' HAB); simpl; lia].
  destruct Hnew as [Hps Hitem].
  cbn [Chat.participants Chat.itemId] in Hps, Hitem. subst item'.
  rewrite !Forall_cons in Hps. destruct Hps as (HA & HB & _).
  unfold Chat.sortIds in HA, HB. rewrite merge_sort_Permutation in HA, HB.
  rewrite filter_none_length; [simpl; lia|].
  eapply Forall_impl; [exact Hfound|]. intros c Hc Hc'. apply Hc.
  apply (concerns_Permutation _ [A; B]); [|done].
  unfold Chat.sortIds. rewrite merge_sort_Permutation.
  symmetry. by apply pair_of_two.
Qed.

Lemma findOrCreate_keeps_pairUnique_witness :
  pairUnique (Chat.findOrCreate "b2" "a1" "i2" 7 "c2" (chats Samples.db0)).2.
Proof.
  apply (findOrCreate_keeps_pairUnique "b2" "a1" "i2" 7 "c2" (chats Samples.db0)).
  intros A B item HAB. cbn. case_decide; simpl; lia.
Defined.

(** ** The total of unread messages *)

Lemma foldl_add_sum {A} (h : A → nat) l : ∀ start,
  foldl (λ total x, total + h x)%nat start l = (start + sum_list_with h l)%nat.
Proof.
  induction l as [|x l IH]; intros start; simpl; [lia|]. rewrite IH. lia.
Qed.

Lemma sum_list_with_fmap {A B} (h : B → nat) (f : A → B) l :
  sum_list_with h (f <$> l) = sum_list_with (h ∘ f) l.
Proof. induction l as [|x l IH]; csimpl; [done|]. by rewrite IH. Qed.

Lemma sum_list_with_same {A} (f g : A → nat) l :
  (∀ x, f x = g x) → sum_list_with f l = sum_list_with g l.
Proof. intros Hfg. induction l as [|x l IH]; [done|]. simpl. by rewrite Hfg, IH. Qed.

Lemma sum_list_with_indicator {A} (f : A → nat) (P : A → Prop)
    `{∀ x, Decision (P x)} l :
  sum_list_with (λ x, f x + if decide (P x) then 1 else 0)%nat l =
  (sum_list_with f l + length (filter P l))%nat.
Proof.
  induction l as [|x l IH]; [done|]. simpl. rewrite IH, filter_cons.
  destruct (decide (P x)); simpl; lia.
Qed.

Lemma filter_shape u (cs' : list Chat.t) : ∀ cs : list Chat.t,
  chatShape <$> cs' = chatShape <$> cs →
  chatShape <$> filter (ChatRoutes.activeFor u) cs' =
  chatShape <$> filter (ChatRoutes.activeFor u) cs.
Proof.
  induction cs' as [|c' cs' IH]; intros [|c cs] Hs; try done.
  rewrite !fmap_cons in Hs. apply (inj2 cons) in Hs as [Hc Hs].
  rewrite !filter_cons.
  assert (ChatRoutes.activeFor u c' ↔ ChatRoutes.activeFor u c) as Hact.
  { unfold ChatRoutes.activeFor.
    change (Chat.participants c') with (chatShape c').1.1.2.
    change (Chat.isActive c') with (chatShape c').2. by rewrite Hc. }
  destruct (decide (ChatRoutes.activeFor u c')) as [H'|H'].
  - rewrite decide_True by (by apply Hact). rewrite !fmap_cons, Hc.
    f_equal. by apply IH.
  - rewrite decide_False by (by rewrite <- Hact). by apply IH.
Qed.

Lemma filter_key_one {A} (key : A → ObjectId) i c d :
  NoDup (key <$> c) → findById key i c = Some d →
  filter (λ x, key x = i) c = [d].
Proof.
  unfold findById, findOne. induction c as [|y c IH]; [done|].
  rewrite fmap_cons. intros [Hy Hnd]%NoDup_cons. rewrite filter_cons.
  destruct (decide (key y = i)) as [Hyi|Hyi]; simpl.
  - intros [= ->]. f_equal.
    destruct (filter (λ x, key x = i) c) as [|z l] eqn:Hf; [done|].
    assert (z ∈ filter (λ x, key x = i) c) as Hz by (rewrite Hf; left).
    apply list_elem_of_filter in Hz as [Hk Hz]. destruct Hy.
    rewrite Hyi, <- Hk. by apply list_elem_of_fmap_2.
  - by apply IH.
Qed.

(** X21: a message counts once in the total of the others: when a
    participant's message to a chat is accepted (chat identifiers being
    unique), the total of unread messages over the active chats grows by one
    for every other user who has the chat among the active chats, and stays
    as it was for the sender, for users who are not in the chat, and for
    everybody when the chat is archived. *)
Theorem sendMessage_unreadCount sender chatId body now newId db chat u :
  NoDup (Chat._id <$> chats db) →
  findById Chat._id chatId (chats db) = Some chat →
  sender ∈ Chat.participants chat →
  Message.validate (ChatRoutes.messageOf sender chatId body now newId) = true →
  let out := ChatRoutes.sendMessage sender chatId body now newId db in
  ChatRoutes.unreadCount u out.2 =
    (ChatRoutes.unreadCount u db +
     if decide (u ≠ sender ∧ ChatRoutes.activeFor u chat) then 1 else 0)%nat.
Proof.
  intros Hnd Hchat Hin Hvalid. cbn zeta. unfold ChatRoutes.sendMessage.
  rewrite Hchat, bool_decide_true by done. cbn [negb].
  unfold Message.save. rewrite Hvalid.
  set (m := ChatRoutes.messageOf sender chatId body now newId).
  unfold ChatRoutes.unreadCount.
  cbn [snd chats messages setChats setMessages]. rewrite !foldl_add_sum.
  cbn [Nat.add].
  set (after := λ c : Chat.t,
         Message.getUnreadCount (Chat._id c) u (insertDoc m (messages db))).
  set (before := λ c : Chat.t,
         Message.getUnreadCount (Chat._id c) u (messages db)).
  set (afterS := λ s : ObjectId * list ObjectId * ObjectId * bool,
         Message.getUnreadCount s.1.1.1 u (insertDoc m (messages db))).
  change after with (afterS ∘ chatShape).
  rewrite <- !sum_list_with_fmap.
  rewrite (filter_shape u _ (chats db) (preSave_shape m now (chats db))).
  rewrite sum_list_with_fmap.
  rewrite (sum_list_with_same (afterS ∘ chatShape)
             (λ c, before c +
                   if decide (Message.unreadBy (Chat._id c) u m) then 1 else 0)%nat)
    by (intros c; apply getUnreadCount_insert).
  rewrite sum_list_with_indicator. f_equal.
  rewrite list_filter_filter.
  rewrite (list_filter_iff _
             (λ c, (u ≠ sender ∧ ChatRoutes.activeFor u c) ∧ Chat._id c = chatId)).
  2:{ intros c. unfold Message.unreadBy. cbn. rewrite Exists_nil.
      split; [intros ((<- & ? & _) & ?)|intros ((? & ?) & <-)]; naive_solver. }
  rewrite <- list_filter_filter.
  rewrite (filter_key_one Chat._id chatId (chats db) chat Hnd Hchat).
  rewrite filter_cons, filter_nil. by case_decide.
Qed.

Lemma sendMessage_unreadCount_witness :
  let body :=
    {| ChatRoutes.content := Some "Found near the station";
       ChatRoutes.messageType := None; ChatRoutes.imageUrl := None;
       ChatRoutes.imageCaption := None; ChatRoutes.location := None |} in
  let out := ChatRoutes.sendMessage "b2" "c1" body 3 "m3" Samples.db0 in
  ChatRoutes.unreadCount "a1" out.2 =
    (ChatRoutes.unreadCount "a1" Samples.db0 +
     if decide ("a1" ≠ "b2" ∧ ChatRoutes.activeFor "a1" Samples.talk)
     then 1 else 0)%nat.
Proof.
  intros body.
  apply (sendMessage_unreadCount "b2" "c1" body 3 "m3" Samples.db0 Samples.talk
           "a1").
  - apply (bool_decide_unpack _). vm_compute. exact I.
  - reflexivity.
  - apply (bool_decide_unpack _). vm_compute. exact I.
  - reflexivity.
Defined.

(** ** The chat list *)

Global Instance latestFirst_total : Total ChatRoutes.latestFirst.
Proof. intros a b. unfold ChatRoutes.latestFirst. lia. Qed.

Global Instance latestFirst_trans : Transitive ChatRoutes.latestFirst.
Proof. intros a b c. unfold ChatRoutes.latestFirst. lia. Qed.

(** X22: the chat list and the total agree: the list holds the requester's
    active chats and no others, ordered by latest activity first, each with
    the number of its messages that the requester has not read, and these
    numbers add up to the total that the unread-count route reports. *)
Theorem getChats_consistent userId db :
  let listed := ChatRoutes.getChats userId db in
  listed.*1 ≡ₚ filter (ChatRoutes.activeFor userId) (chats db) ∧
  StronglySorted ChatRoutes.latestFirst listed.*1 ∧
  Forall (λ entry, entry.2 = Message.getUnreadCount (Chat._id entry.1) userId
                               (messages db)) listed ∧
  sum_list listed.*2 = ChatRoutes.unreadCount userId db.
Proof.
  cbn zeta. unfold ChatRoutes.getChats.
  set (sorted := merge_sort ChatRoutes.latestFirst _).
  assert (sorted ≡ₚ filter (ChatRoutes.activeFor userId) (chats db)) as Hperm
    by apply merge_sort_Permutation.
  rewrite <- !list_fmap_compose.
  split; [by rewrite list_fmap_id|]. split.
  { rewrite list_fmap_id. apply StronglySorted_merge_sort; apply _. }
  split; [by apply Forall_fmap, Forall_true|].
  unfold ChatRoutes.unreadCount. rewrite foldl_add_sum. cbn [Nat.add].
  rewrite <- Hperm. clear Hperm. induction sorted as [|c l IH]; [done|].
  csimpl. by rewrite IH.
Qed.

(** ** Refused requests *)

(** X23: a refusal leaves no trace: when a request to fetch, edit, resolve
    or delete an item, to record a match alert, to start a chat, to list or
    send messages, to mark a chat as read or to archive it is answered with
    a status from 400 to 499, the database is exactly as it was. *)
Theorem refusals_change_nothing `{Platform} db code text :
  (400 ≤ code < 500)%nat →
  (∀ id,
     (ItemRoutes.getItem id db).1 = Failed code text →
     (ItemRoutes.getItem id db).2 = db) ∧
  (∀ userId id body,
     (ItemRoutes.update userId id body db).1 = Failed code text →
     (ItemRoutes.update userId id body db).2 = db) ∧
  (∀ userId id now,
     (ItemRoutes.resolve userId id now db).1 = Failed code text →
     (ItemRoutes.resolve userId id now db).2 = db) ∧
  (∀ destroy userId id,
     (ItemRoutes.deleteItem destroy userId id db).1 = Failed code text →
     (ItemRoutes.deleteItem destroy userId id db).2 = db) ∧
  (∀ userId body now,
     (NotificationRoutes.matchAlert userId body now db).1 = Failed code text →
     (NotificationRoutes.matchAlert userId body now db).2 = db) ∧
  (∀ userId body now newChatId newMessageId,
     (ChatRoutes.start userId body now newChatId newMessageId db).1
       = Failed code text →
     (ChatRoutes.start userId body now newChatId newMessageId db).2 = db) ∧
  (∀ userId chatId page limit now,
     (ChatRoutes.listMessages userId chatId page limit now db).1
       = Failed code text →
     (ChatRoutes.listMessages userId chatId page limit now db).2 = db) ∧
  (∀ userId chatId body now newId,
     (ChatRoutes.sendMessage userId chatId body now newId db).1
       = Failed code text →
     (ChatRoutes.sendMessage userId chatId body now newId db).2 = db) ∧
  (∀ userId chatId now,
     (ChatRoutes.markRead userId chatId now db).1 = Failed code text →
     (ChatRoutes.markRead userId chatId now db).2 = db) ∧
  (∀ userId chatId,
     (ChatRoutes.archive userId chatId db).1 = Failed code text →
     (ChatRoutes.archive userId chatId db).2 = db).
Proof.
  intros Hcode.
  assert (∀ (A : Type) (db' : Db),
            (@serverError A, db').1 = Failed code text → (@serverError A, db').2 = db)
    as Hserver.
  { intros A db' [= <- _]. lia. }
  repeat split.
  - intros id. unfold ItemRoutes.getItem.
    by destruct (findById Item._id id (items db)).
  - intros userId id body. unfold ItemRoutes.update.
    destruct (findById Item._id id (items db)) as [item|]; [|done].
    case_bool_decide; [done|].
    destruct (ItemRoutes.assign body item) as [item'|]; [|done].
    by destruct (Item.validate item').
  - intros userId id now. unfold ItemRoutes.resolve.
    destruct (findById Item._id id (items db)) as [item|]; [|done].
    case_bool_decide; [done|]. cbn zeta.
    destruct (findById User._id userId _); [done|apply Hserver].
  - intros destroy userId id. unfold ItemRoutes.deleteItem.
    destruct (findById Item._id id (items db)) as [item|]; [|done].
    case_bool_decide; [done|]. by destruct (forallb _ _).
  - intros userId body now. unfold NotificationRoutes.matchAlert.
    destruct (_ ≫= _) as [item|]; [|done].
    destruct (_ ≫= _) as [matchedItem|]; [|done].
    destruct (_ && _); [done|]. cbn zeta.
    destruct (findById User._id (Item.postedBy item) _); [|apply Hserver].
    destruct (findById User._id (Item.postedBy matchedItem) _);
      [done|apply Hserver].
  - intros userId body now newChatId newMessageId. unfold ChatRoutes.start.
    destruct (ChatRoutes.itemId body) as [i|]; [|done].
    destruct (findById Item._id i (items db)) as [item|]; [|done].
    case_bool_decide; [done|]. unfold ChatRoutes.startChat. cbn zeta.
    destruct (Chat.findOrCreate _ _ _ _ _ _).1 as [chat|]; [|done].
    destruct (_ && _); [|done].
    destruct (Message.save _ _ _ _) as [[cs ms]|]; [done|apply Hserver].
  - intros userId chatId page limit now. unfold ChatRoutes.listMessages.
    cbn zeta. destruct (findById Chat._id chatId (chats db)); [|done].
    destruct (negb _); [done|]. by case_bool_decide.
  - intros userId chatId body now newId. unfold ChatRoutes.sendMessage.
    destruct (findById Chat._id chatId (chats db)); [|done].
    destruct (negb _); [done|]. cbn zeta.
    by destruct (Message.save _ _ _ _) as [[cs ms]|].
  - intros userId chatId now. unfold ChatRoutes.markRead.
    destruct (findById Chat._id chatId (chats db)); [|done].
    by destruct (negb _).
  - intros userId chatId. unfold ChatRoutes.archive.
    destruct (findById Chat._id chatId (chats db)); [|done].
    by destruct (negb _).
Qed.

Lemma refusals_change_nothing_witness :
  (∀ id,
     (ItemRoutes.getItem id Samples.db0).1 = Failed 403 "Not authorized" →
     (ItemRoutes.getItem id Samples.db0).2 = Samples.db0) ∧
  (∀ userId id body,
     (ItemRoutes.update userId id body Samples.db0).1
       = Failed 403 "Not authorized" →
     (ItemRoutes.update userId id body Samples.db0).2 = Samples.db0) ∧
  (∀ userId id now,
     (ItemRoutes.resolve userId id now Samples.db0).1
       = Failed 403 "Not authorized" →
     (ItemRoutes.resolve userId id now Samples.db0).2 = Samples.db0) ∧
  (∀ destroy userId id,
     (ItemRoutes.deleteItem destroy userId id Samples.db0).1
       = Failed 403 "Not authorized" →
     (ItemRoutes.deleteItem destroy userId id Samples.db0).2 = Samples.db0) ∧
  (∀ userId body now,
     (NotificationRoutes.matchAlert userId body now Samples.db0).1
       = Failed 403 "Not authorized" →
     (NotificationRoutes.matchAlert userId body now Samples.db0).2
       = Samples.db0) ∧
  (∀ userId body now newChatId newMessageId,
     (ChatRoutes.start userId body now newChatId newMessageId Samples.db0).1
       = Failed 403 "Not authorized" →
     (ChatRoutes.start userId body now newChatId newMessageId Samples.db0).2
       = Samples.db0) ∧
  (∀ userId chatId page limit now,
     (ChatRoutes.listMessages userId chatId page limit now Samples.db0).1
       = Failed 403 "Not authorized" →
     (ChatRoutes.listMessages userId chatId page limit now Samples.db0).2
       = Samples.db0) ∧
  (∀ userId chatId body now newId,
     (ChatRoutes.sendMessage userId chatId body now newId Samples.db0).1
       = Failed 403 "Not authorized" →
     (ChatRoutes.sendMessage userId chatId body now newId Samples.db0).2
       = Samples.db0) ∧
  (∀ userId chatId now,
     (ChatRoutes.markRead userId chatId now Samples.db0).1
       = Failed 403 "Not authorized" →
     (ChatRoutes.markRead userId chatId now Samples.db0).2 = Samples.db0) ∧
  (∀ userId chatId,
     (ChatRoutes.archive userId chatId Samples.db0).1
       = Failed 403 "Not authorized" →
     (ChatRoutes.archive userId chatId Samples.db0).2 = Samples.db0).
Proof.
  apply (refusals_change_nothing Samples.db0 403 "Not authorized"). lia.
Defined.

(** ** The matches recorded at posting time *)

Lemma filter_updateOne_excluded {A} (P Q : A → Prop)
    `{∀ x, Decision (P x)} `{∀ x, Decision (Q x)} f c :
  (∀ x, P x → ¬ Q x ∧ ¬ Q (f x)) →
  filter Q (updateOne P f c) = filter Q c.
Proof.
  intros Hex. induction c as [|x c IH]; [done|]. cbn [updateOne].
  destruct (decide (P x)) as [Hx|Hx].
  - destruct (Hex x Hx). by rewrite !filter_cons_False.
  - by rewrite !filter_cons, IH.
Qed.

Lemma findPotentialMatches_saveDoc `{Platform} d ty cat origin c :
  Item.findPotentialMatches (Item._id d) ty cat origin (saveDoc Item._id d c) =
  Item.findPotentialMatches (Item._id d) ty cat origin c.
Proof.
  unfold Item.findPotentialMatches, saveDoc, updateById.
  rewrite filter_updateOne_excluded; [done|].
  intros x Hx. split; by intros [? _].
Qed.

Lemma addPotentialMatch_run_matches `{Platform} conf now ty cat origin ms :
  ∀ i c,
  let st :=
    foldl (λ st m, Item.addPotentialMatch (Item._id m) conf now st.1 st.2)
          (i, c) ms in
  Item._id st.1 = Item._id i ∧
  Item.findPotentialMatches (Item._id i) ty cat origin st.2 =
  Item.findPotentialMatches (Item._id i) ty cat origin c.
Proof.
  induction ms as [|m ms IH]; intros i c; cbn zeta; [done|].
  cbn [foldl fst snd].
  destruct (addPotentialMatch_cases (Item._id m) conf now i c)
    as [[_ ->]|[_ ->]]; [apply IH|].
  set (i' := Item.setPotentialMatches _ i).
  destruct (IH i' (saveDoc Item._id i' c)) as [Hid Hsame].
  split; [done|]. change (Item._id i) with (Item._id i').
  by rewrite Hsame, findPotentialMatches_saveDoc.
Qed.

(** X24: right after an item is posted, its recorded matches are its live
    matches: when the posting is answered with 201 (item identifiers being
    unique and the new one fresh), the matches route returns for the new item
    the items whose identifiers the new item's [potentialMatches] list, in
    the same order, as many as the answer announced. *)
Theorem create_snapshot_is_live `{Platform} userId body files now newId db
    code created :
  NoDup (Item._id <$> items db) →
  newId ∉ Item._id <$> items db →
  (ItemRoutes.create userId body files now newId db).1 = Sent code created →
  ∃ found,
    ItemRoutes.matches newId (ItemRoutes.create userId body files now newId db).2
      = Sent 200 found ∧
    Item.itemId <$> Item.potentialMatches (ItemRoutes.item created)
      = Item._id <$> found ∧
    ItemRoutes.potentialMatches created = length found.
Proof.
  intros Hnd Hfresh. unfold ItemRoutes.create.
  destruct (ItemRoutes.build _ _ _ _ _) as [item0|] eqn:Hbuild; [|done].
  destruct (Item.validate item0); [|done]. cbn [negb].
  cbn [users items setItems setUsers].
  destruct (findById User._id userId _) as [user|]; [|done].
  cbn [fst snd items users setItems setUsers User.addPoints].
  assert (Item._id item0 = newId ∧ Item.potentialMatches item0 = [])
    as (Hid & Hpm).
  { unfold ItemRoutes.build in Hbuild.
    repeat match type of Hbuild with
           | mbind _ ?m = Some _ => destruct m; simpl in Hbuild; [|done]
           end.
    by injection Hbuild as <-. }
  subst newId. rewrite findPotentialMatches_insert.
  set (found := Item.findPotentialMatches _ _ _ _ (items db)).
  destruct (addPotentialMatch_run 0.7 now found item0
              (insertDoc item0 (items db))) as [Hst1 Hst2].
  { by apply findPotentialMatches_NoDup. }
  { intros m _. rewrite Hpm. apply not_elem_of_nil. }
  { unfold findById, insertDoc. rewrite findOne_app.
    rewrite decide_True by done.
    assert (findOne (λ d, Item._id d = Item._id item0) (items db) = None) as ->;
      [|done].
    apply findOne_None, Forall_forall. intros d Hd Heq. apply Hfresh.
    rewrite <- Heq. by apply list_elem_of_fmap_2. }
  destruct (addPotentialMatch_run_matches 0.7 now (Item.type item0)
              (Item.category item0) (coordinates (Item.location item0)) found
              item0 (insertDoc item0 (items db))) as [_ Hlive].
  cbn zeta in Hst1, Hst2, Hlive.
  set (st := foldl _ (item0, insertDoc item0 (items db)) found) in *.
  intros [= _ <-]. exists found. unfold ItemRoutes.matches.
  cbn [items setItems ItemRoutes.item ItemRoutes.potentialMatches].
  rewrite Hst2, Hst1. cbn [Item._id Item.type Item.category Item.location
                            Item.setPotentialMatches Item.potentialMatches].
  rewrite Hlive, findPotentialMatches_insert. fold found.
  split; [done|]. split; [|done].
  rewrite Hpm. cbn [app]. rewrite <- list_fmap_compose. done.
Qed.

Lemma create_snapshot_is_live_witness :
  ∃ found,
    ItemRoutes.matches "i9"
      (ItemRoutes.create "a1" Samples.form ["photo.jpg"] 1000 "i9" Samples.db0).2
      = Sent 200 found ∧
    Item.itemId <$>
      Item.potentialMatches
        (ItemRoutes.item
           {| ItemRoutes.item :=
                Item.setPotentialMatches
                  [matchEntry 0.7 1000 Samples.foundPhone] Samples.posted;
              ItemRoutes.potentialMatches := 1 |})
      = Item._id <$> found ∧
    ItemRoutes.potentialMatches
      {| ItemRoutes.item :=
           Item.setPotentialMatches
             [matchEntry 0.7 1000 Samples.foundPhone] Samples.posted;
         ItemRoutes.potentialMatches := 1 |} = length found.
Proof.
  apply (create_snapshot_is_live "a1" Samples.form ["photo.jpg"] 1000 "i9"
           Samples.db0 201).
  - apply (bool_decide_unpack _). vm_compute. exact I.
  - apply (bool_decide_unpack _). vm_compute. exact I.
  - vm_compute. reflexivity.
Defined.
